(** * graph-rag: a knowledge-graph retrieval pipeline

    A shallow embedding of the Python sources [data.py], [kg.py], [query.py],
    [rag.py] and [graph.py], and the properties of the retrieval pipeline
    stated against it.

    Conventions of the embedding:
    - a Python [str] is a Rocq [string]; its characters are the code points
      below 256, on which [str.lower] is the map [lower_char] below;
    - the attribute values of [data.py] are strings and integers ([value]);
      node attributes are strings, as all of them are in [data.py];
    - an integer is printed in decimal; Python refuses to print one of more
      than 4300 digits, and the statements about the shape of a printed
      sentence carry that bound ([fact_printable]);
    - a Python dict whose iteration order is never observed (attribute
      mappings) is a [gmap]; a dict that is iterated (the node table, the
      adjacency of the graph) is a list in insertion order;
    - a Python [set] is a [gset];
    - an exception is a value [Raise e] of the result type [res];
    - [networkx.MultiDiGraph] is the node table and the edge list, with the
      behaviour of the calls [kg.py] makes: [add_edge] adds missing
      endpoints, edge views list neighbours in adjacency order and parallel
      edges in key order, [successors] raises on an unknown node;
    - the [while] loop of the traversal is a fixpoint on a step budget
      computed from the graph, and is shown never to exhaust it;
    - the diagnostic [debug_logs] of the pipeline are left out. *)

From stdpp Require Import gmap strings list fin_maps sorting.
From Stdlib Require Import ZArith DecimalString Ascii.

Set Warnings "-clear-no-such-hyp".

(** ** Python values and exceptions *)

(** The values stored in the attribute mappings of [data.py]: strings and
    integers. Python's [==] on them is structural equality. *)
Inductive value :=
  | VStr (s : string)
  | VInt (z : Z).

Global Instance value_eq_dec : EqDecision value.
Proof. solve_decision. Defined.

Global Instance value_countable : Countable value.
Proof.
  refine (inj_countable'
            (fun v => match v with VStr s => inl s | VInt z => inr z end)
            (fun x => match x with inl s => VStr s | inr z => VInt z end) _).
  by intros [].
Defined.

Inductive exn :=
  | KeyError (k : string)
  | TypeError (msg : string)
  | NetworkXError (msg : string).

Inductive res (A : Type) :=
  | Ok (a : A)
  | Raise (e : exn).
Arguments Ok {A} a.
Arguments Raise {A} e.

Global Instance res_ret : MRet res := fun A a => Ok a.

Global Instance res_bind : MBind res := fun A B k m =>
  match m with
  | Ok a => k a
  | Raise e => Raise e
  end.

(** [[f(x) for x in l]] where [f] may raise: the first exception wins. *)
Fixpoint mapM {A B} (f : A -> res B) (l : list A) : res (list B) :=
  match l with
  | [] => Ok []
  | x :: r => y ← f x; ys ← mapM f r; Ok (y :: ys)
  end.

(** [for x in l: acc = f(acc, x)] where [f] may raise. *)
Fixpoint foldM {A S} (f : S -> A -> res S) (s : S) (l : list A) : res S :=
  match l with
  | [] => Ok s
  | x :: r => s' ← f s x; foldM f s' r
  end.

Definition is_ok {A} (m : res A) : Prop := exists a, m = Ok a.

(** ** Python string operations *)

Module PyStr.

Definition in_range (lo hi : N) (c : ascii) : bool :=
  (lo <=? N_of_ascii c)%N && (N_of_ascii c <=? hi)%N.

Definition is_upper (c : ascii) : bool := in_range 65 90 c.
Definition is_lower (c : ascii) : bool := in_range 97 122 c.

(** [str.lower] on one code point below 256: A-Z, and the Latin-1 capitals
    U+00C0-U+00D6 and U+00D8-U+00DE, move up by 32. *)
Definition lower_char (c : ascii) : ascii :=
  if is_upper c || in_range 192 214 c || in_range 216 222 c
  then ascii_of_N (N_of_ascii c + 32)
  else c.

Definition upper_char (c : ascii) : ascii :=
  if is_lower c then ascii_of_N (N_of_ascii c - 32) else c.

Fixpoint lower (s : string) : string :=
  match s with
  | EmptyString => EmptyString
  | String c r => String (lower_char c) (lower r)
  end.

(** [s.startswith(p)] *)
Fixpoint starts_with (p s : string) : bool :=
  match p, s with
  | EmptyString, _ => true
  | String _ _, EmptyString => false
  | String a p', String b s' => Ascii.eqb a b && starts_with p' s'
  end.

(** [sub in s]: [sub] occurs in [s] as a contiguous substring. *)
Fixpoint str_in (sub s : string) : bool :=
  starts_with sub s ||
  match s with
  | EmptyString => false
  | String _ r => str_in sub r
  end.

(** [str.title] on ASCII text (it is only applied to the names of the
    fixed entity catalog): a letter that follows a letter is lowered, any
    other letter is raised. *)
Fixpoint title_from (prev_cased : bool) (s : string) : string :=
  match s with
  | EmptyString => EmptyString
  | String c r =>
      if is_upper c || is_lower c
      then String (if prev_cased then lower_char c else upper_char c)
                  (title_from true r)
      else String c (title_from false r)
  end.

Definition title (s : string) : string := title_from false s.

(** [sep.join(parts)] *)
Fixpoint join (sep : string) (parts : list string) : string :=
  match parts with
  | [] => ""
  | [p] => p
  | p :: r => p +:+ sep +:+ join sep r
  end.

(** [str(z)] for an int, in decimal. CPython from 3.11 on prints an int of
    at most 4300 digits and raises [ValueError] on a longer one; the model
    is the conversion on the integers it prints ([int_printable] below). *)
Definition str_of_int (z : Z) : string := NilZero.string_of_int (Z.to_int z).

(** The characters of a string as one-character strings ([for c in s]). *)
Fixpoint chars (s : string) : list string :=
  match s with
  | EmptyString => []
  | String c r => String c EmptyString :: chars r
  end.

(** [s.split(" ")] restricted to what the token view of a name needs:
    the maximal runs between spaces. *)
Fixpoint split_on (sep : ascii) (cur : string) (s : string) : list string :=
  match s with
  | EmptyString => [cur]
  | String c r =>
      if Ascii.eqb c sep then cur :: split_on sep "" r
      else split_on sep (cur +:+ String c EmptyString) r
  end.

(** How an f-string renders a value, and [None]. *)
Definition fmt_value (v : value) : string :=
  match v with
  | VStr s => s
  | VInt z => str_of_int z
  end.

Definition fmt_opt_str (o : option string) : string :=
  match o with
  | Some s => s
  | None => "None"
  end.

Definition fmt_opt_value (o : option value) : string :=
  match o with
  | Some v => fmt_value v
  | None => "None"
  end.

(** [c.isspace()] on a code point below 256, and [s.strip()]. *)
Definition is_space (c : ascii) : bool :=
  in_range 9 13 c || in_range 28 32 c || in_range 133 133 c || in_range 160 160 c.

Fixpoint lstrip (s : string) : string :=
  match s with
  | EmptyString => EmptyString
  | String c r => if is_space c then lstrip r else s
  end.

Fixpoint rstrip (s : string) : string :=
  match s with
  | EmptyString => EmptyString
  | String c r =>
      match rstrip r with
      | EmptyString => if is_space c then EmptyString else String c EmptyString
      | r' => String c r'
      end
  end.

Definition strip (s : string) : string := rstrip (lstrip s).

End PyStr.

(** ** networkx.MultiDiGraph, as far as [kg.py] uses it *)

(** One edge of the multigraph: endpoints, the edge key that tells parallel
    edges apart, and the data dict (which holds ["relation"] among the
    attributes). *)
Record edge := Edge {
  e_src : string;
  e_tgt : string;
  e_key : value;
  e_data : gmap string value
}.

(** The node table in insertion order, and the edges in insertion order.
    [_succ[u]] lists the targets of [u] ordered by their first edge from [u],
    and each [_succ[u][v]] lists the parallel edges in insertion order;
    [_pred] mirrors it. Nothing is ever removed, so both orders are
    functions of [g_edges]. *)
Record MultiDiGraph := Graph {
  g_nodes : list (string * gmap string string);
  g_edges : list edge
}.

Definition empty_graph : MultiDiGraph := Graph [] [].

Definition node_ids (G : MultiDiGraph) : list string := (g_nodes G).*1.

Definition has_node (G : MultiDiGraph) (n : string) : bool :=
  bool_decide (n ∈ node_ids G).

(** [dict.get] on an insertion-ordered dict. *)
Fixpoint assoc {V} (k : string) (l : list (string * V)) : option V :=
  match l with
  | [] => None
  | (k', v) :: r => if decide (k' = k) then Some v else assoc k r
  end.

(** [G.nodes[n]] *)
Definition nodes_get (G : MultiDiGraph) (n : string) : res (gmap string string) :=
  match assoc n (g_nodes G) with
  | Some d => Ok d
  | None => Raise (KeyError n)
  end.

(** The distinct elements of a list, each at its first position (the key
    order of a dict filled in list order). *)
Fixpoint uniq (l : list string) : list string :=
  match l with
  | [] => []
  | x :: r => x :: filter (fun y => y ≠ x) (uniq r)
  end.

(** [G.add_node(n, **attr)] once the arguments are bound: a new node is
    appended, an existing one has its attributes updated in place. *)
Definition add_node (G : MultiDiGraph) (n : string) (attr : gmap string string)
  : MultiDiGraph :=
  if has_node G n
  then Graph (map (fun p => if decide (p.1 = n) then (p.1, attr ∪ p.2) else p)
                  (g_nodes G))
             (g_edges G)
  else Graph (g_nodes G ++ [(n, attr)]) (g_edges G).

(** The parallel edges from [u] to [v] ([_succ[u][v]]). *)
Definition keydict (G : MultiDiGraph) (u v : string) : list edge :=
  filter (fun e => e_src e = u ∧ e_tgt e = v) (g_edges G).

Definition key_in (k : value) (kd : list edge) : bool :=
  bool_decide (k ∈ map e_key kd).

(** [while key in keydict: key += 1], at most [fuel] increments. *)
Fixpoint next_free_key (fuel : nat) (k : Z) (kd : list edge) : Z :=
  match fuel with
  | O => k
  | S fuel' => if key_in (VInt k) kd then next_free_key fuel' (k + 1)%Z kd else k
  end.

(** [G.new_edge_key(u, v)]: 0 when there is no edge from [u] to [v], else
    the least integer from [len(keydict)] on that is not a key yet; it is
    found within [len(keydict)] increments. *)
Definition new_edge_key (G : MultiDiGraph) (u v : string) : value :=
  match keydict G u v with
  | [] => VInt 0
  | kd => VInt (next_free_key (length kd) (Z.of_nat (length kd)) kd)
  end.

(** The first lines of [add_edge], for one endpoint: a node that is not in
    the graph yet is added without attributes. *)
Definition ensure_node (G : MultiDiGraph) (n : string) : MultiDiGraph :=
  if has_node G n then G else Graph (g_nodes G ++ [(n, ∅)]) (g_edges G).

(** [G.add_edge(u, v, key, **attr)] once the arguments are bound: missing
    endpoints are added as nodes ([u] first); an edge with the same endpoints
    and key has its data updated in place, otherwise a new edge is
    appended. *)
Definition add_edge (G : MultiDiGraph) (u v : string) (key : option value)
    (attr : gmap string value) : MultiDiGraph :=
  let G2 := ensure_node (ensure_node G u) v in
  let k := match key with Some k => k | None => new_edge_key G2 u v end in
  if key_in k (keydict G2 u v)
  then Graph (g_nodes G2)
             (map (fun e => if decide (e_src e = u ∧ e_tgt e = v ∧ e_key e = k)
                            then Edge u v k (attr ∪ e_data e) else e)
                  (g_edges G2))
  else Graph (g_nodes G2) (g_edges G2 ++ [Edge u v k attr]).

(** [G.successors(n)] and [G.predecessors(n)]: the keys of [_succ[n]] and
    [_pred[n]]; a node that is not in the graph raises. *)
Definition succ_list (G : MultiDiGraph) (n : string) : list string :=
  uniq (map e_tgt (filter (fun e => e_src e = n) (g_edges G))).

Definition pred_list (G : MultiDiGraph) (n : string) : list string :=
  uniq (map e_src (filter (fun e => e_tgt e = n) (g_edges G))).

Definition successors (G : MultiDiGraph) (n : string) : res (list string) :=
  if has_node G n then Ok (succ_list G n)
  else Raise (NetworkXError "The node is not in the digraph.").

Definition predecessors (G : MultiDiGraph) (n : string) : res (list string) :=
  if has_node G n then Ok (pred_list G n)
  else Raise (NetworkXError "The node is not in the digraph.").

(** [G.nbunch_iter(nbunch)] for a string [nbunch], as the edge views call
    it: a node of the graph stands for itself; any other string is iterated
    as a container, which keeps those of its characters that are nodes. *)
Definition nbunch_iter (G : MultiDiGraph) (nbunch : string) : list string :=
  if has_node G nbunch then [nbunch]
  else uniq (filter (fun c => has_node G c = true) (PyStr.chars nbunch)).

(** [G.out_edges(n, data=True)] and [G.in_edges(n, data=True)]: per node of
    the bunch, the neighbours in adjacency order and, per neighbour, the
    parallel edges in key order. *)
Definition out_edges_of (G : MultiDiGraph) (n : string) : list edge :=
  flat_map (fun v => keydict G n v) (succ_list G n).

Definition in_edges_of (G : MultiDiGraph) (n : string) : list edge :=
  flat_map (fun u => keydict G u n) (pred_list G n).

Definition out_edges (G : MultiDiGraph) (nbunch : string) : list edge :=
  flat_map (out_edges_of G) (nbunch_iter G nbunch).

Definition in_edges (G : MultiDiGraph) (nbunch : string) : list edge :=
  flat_map (in_edges_of G) (nbunch_iter G nbunch).

(** ** kg.py: construction *)

(** A relationship seed [(source, target, rel_type, attrs)]. *)
Definition rel_seed : Type := string * string * string * gmap string value.

(** [G.add_node(person["id"], **person)]: the subscript raises on a seed
    without ["id"]; a seed key that names a positional parameter of
    [add_node] is a duplicate argument. *)
Definition add_node_seed (G : MultiDiGraph) (seed : gmap string string)
  : res MultiDiGraph :=
  match seed !! "id" with
  | None => Raise (KeyError "id")
  | Some n =>
      if bool_decide (is_Some (seed !! "self")) ||
         bool_decide (is_Some (seed !! "node_for_adding"))
      then Raise (TypeError "got multiple values for argument")
      else Ok (add_node G n seed)
  end.

(** [G.add_edge(source, target, relation=rel_type, **attrs)]: an [attrs] key
    ["relation"] repeats a keyword, a key that names a positional parameter
    is a duplicate argument, and a key ["key"] binds the [key] parameter. *)
Definition add_edge_seed (G : MultiDiGraph) (r : rel_seed) : res MultiDiGraph :=
  let '(source, target, rel_type, attrs) := r in
  if bool_decide (is_Some (attrs !! "relation"))
  then Raise (TypeError "got multiple values for keyword argument 'relation'")
  else if bool_decide (is_Some (attrs !! "self")) ||
          bool_decide (is_Some (attrs !! "u_for_edge")) ||
          bool_decide (is_Some (attrs !! "v_for_edge"))
  then Raise (TypeError "got multiple values for argument")
  else Ok (add_edge G source target (attrs !! "key")
             (<["relation" := VStr rel_type]> (delete "key" attrs))).

(** [create_knowledge_graph], with the three tables of [data.py] as
    arguments. *)
Definition create_knowledge_graph
    (PEOPLE COMPANIES : list (gmap string string))
    (RELATIONSHIPS : list rel_seed) : res MultiDiGraph :=
  G ← foldM add_node_seed empty_graph PEOPLE;
  G ← foldM add_node_seed G COMPANIES;
  foldM add_edge_seed G RELATIONSHIPS.

(** ** data.py *)

Definition PEOPLE : list (gmap string string) :=
  [ list_to_map [("id", "p1"); ("name", "Elon Musk"); ("type", "person"); ("role", "CEO")];
    list_to_map [("id", "p2"); ("name", "Sam Altman"); ("type", "person"); ("role", "CEO")];
    list_to_map [("id", "p3"); ("name", "Satya Nadella"); ("type", "person"); ("role", "CEO")];
    list_to_map [("id", "p4"); ("name", "Jensen Huang"); ("type", "person"); ("role", "CEO")];
    list_to_map [("id", "p5"); ("name", "Demis Hassabis"); ("type", "person"); ("role", "CEO")] ].

Definition COMPANIES : list (gmap string string) :=
  [ list_to_map [("id", "c1"); ("name", "Tesla"); ("type", "company"); ("industry", "automotive")];
    list_to_map [("id", "c2"); ("name", "SpaceX"); ("type", "company"); ("industry", "aerospace")];
    list_to_map [("id", "c3"); ("name", "OpenAI"); ("type", "company"); ("industry", "AI")];
    list_to_map [("id", "c4"); ("name", "Microsoft"); ("type", "company"); ("industry", "technology")];
    list_to_map [("id", "c5"); ("name", "NVIDIA"); ("type", "company"); ("industry", "semiconductors")];
    list_to_map [("id", "c6"); ("name", "DeepMind"); ("type", "company"); ("industry", "AI")];
    list_to_map [("id", "c7"); ("name", "Google"); ("type", "company"); ("industry", "technology")];
    list_to_map [("id", "c8"); ("name", "Neuralink"); ("type", "company"); ("industry", "neurotechnology")] ].

Definition RELATIONSHIPS : list rel_seed :=
  [ ("p1", "c1", "founded", list_to_map [("year", VInt 2003)]);
    ("p1", "c2", "founded", list_to_map [("year", VInt 2002)]);
    ("p1", "c8", "founded", list_to_map [("year", VInt 2016)]);
    ("p1", "c1", "leads", list_to_map [("role", VStr "CEO")]);
    ("p1", "c2", "leads", list_to_map [("role", VStr "CEO")]);
    ("p2", "c3", "leads", list_to_map [("role", VStr "CEO")]);
    ("p2", "c3", "co_founded", list_to_map [("year", VInt 2015)]);
    ("p3", "c4", "leads", list_to_map [("role", VStr "CEO")]);
    ("p4", "c5", "founded", list_to_map [("year", VInt 1993)]);
    ("p4", "c5", "leads", list_to_map [("role", VStr "CEO")]);
    ("p5", "c6", "founded", list_to_map [("year", VInt 2010)]);
    ("p5", "c6", "leads", list_to_map [("role", VStr "CEO")]);
    ("c4", "c3", "invested_in", list_to_map [("amount", VStr "$13B"); ("year", VInt 2023)]);
    ("c4", "c3", "partners_with", list_to_map [("type", VStr "strategic")]);
    ("c7", "c6", "acquired", list_to_map [("year", VInt 2014)]);
    ("c5", "c3", "supplies", list_to_map [("product", VStr "GPUs")]);
    ("c5", "c4", "partners_with", list_to_map [("type", VStr "hardware")]) ].

(** ** kg.py: lookup, relationships, traversal *)

(** The test of [get_node_by_name] on one node:
    [name_lower in node_name or node_name in name_lower], where a node
    without a ["name"] has the name [""]. *)
Definition name_matches (name_lower : string) (data : gmap string string) : bool :=
  let node_name := PyStr.lower (default "" (data !! "name")) in
  PyStr.str_in name_lower node_name || PyStr.str_in node_name name_lower.

Definition get_node_by_name (G : MultiDiGraph) (name : string)
  : list (string * gmap string string) :=
  let name_lower := PyStr.lower name in
  fold_left
    (fun matches p => if name_matches name_lower p.2 then matches ++ [p] else matches)
    (g_nodes G) [].

(** A relationship dict of [get_node_relationships]. *)
Record fact := Fact {
  direction : string;
  source : string;
  source_name : option string;
  target : string;
  target_name : option string;
  relation : option value;
  attributes : gmap string value
}.

Definition outgoing_fact (G : MultiDiGraph) (node_id : string) (e : edge) : res fact :=
  target_data ← nodes_get G (e_tgt e);
  node_data ← nodes_get G node_id;
  Ok (Fact "outgoing" node_id (node_data !! "name")
           (e_tgt e) (target_data !! "name")
           (e_data e !! "relation") (delete "relation" (e_data e))).

Definition incoming_fact (G : MultiDiGraph) (node_id : string) (e : edge) : res fact :=
  source_data ← nodes_get G (e_src e);
  node_data ← nodes_get G node_id;
  Ok (Fact "incoming" (e_src e) (source_data !! "name")
           node_id (node_data !! "name")
           (e_data e !! "relation") (delete "relation" (e_data e))).

Definition get_node_relationships (G : MultiDiGraph) (node_id : string)
  : res (list fact) :=
  relationships ←
    foldM (fun rels e => f ← outgoing_fact G node_id e; Ok (rels ++ [f]))
          [] (out_edges G node_id);
  foldM (fun rels e => f ← incoming_fact G node_id e; Ok (rels ++ [f]))
        relationships (in_edges G node_id).

(** The key of the final deduplication: [(source, target, relation)]. *)
Definition fact_key : Type := string * string * option value.

Definition key_of (f : fact) : fact_key := (source f, target f, relation f).

(** One round of [if key not in seen: seen.add(key); out.append(fact)]. *)
Definition dedup_step (st : gset fact_key * list fact) (f : fact)
  : gset fact_key * list fact :=
  if bool_decide (key_of f ∈ st.1) then st
  else ({[key_of f]} ∪ st.1, st.2 ++ [f]).

Definition unique_facts (facts : list fact) : list fact :=
  (fold_left dedup_step facts (∅, [])).2.

(** The state of the [while] loop of [traverse_from_node]. *)
Record tstate := TState {
  visited : gset string;
  facts : list fact;
  to_visit : list (string * Z)
}.

(** The neighbours a node adds to the queue:
    [list(G.successors(n)) + list(G.predecessors(n))], without those already
    visited, each at the next depth. *)
Definition enqueue_neighbors (G : MultiDiGraph) (current_id : string)
    (current_depth : Z) (visited' : gset string) : res (list (string * Z)) :=
  ss ← successors G current_id;
  ps ← predecessors G current_id;
  Ok (map (fun neighbor => (neighbor, (current_depth + 1)%Z))
          (filter (fun neighbor => neighbor ∉ visited') (ss ++ ps))).

(** One iteration of the loop body, for the popped item
    [(current_id, current_depth)] and the rest of the queue. *)
Definition traverse_step (G : MultiDiGraph) (depth : Z) (st : tstate)
    (current_id : string) (current_depth : Z) (rest : list (string * Z))
  : res tstate :=
  if bool_decide (current_id ∈ visited st) || (depth <? current_depth)%Z
  then Ok (TState (visited st) (facts st) rest)
  else
    let visited' := {[current_id]} ∪ visited st in
    rels ← get_node_relationships G current_id;
    if (current_depth <? depth)%Z
    then
      new ← enqueue_neighbors G current_id current_depth visited';
      Ok (TState visited' (facts st ++ rels) (rest ++ new))
    else Ok (TState visited' (facts st ++ rels) rest).

(** The loop, with a budget of iterations; [None] means the budget ran out
    while the queue was not empty. *)
Fixpoint traverse_loop (G : MultiDiGraph) (depth : Z) (fuel : nat) (st : tstate)
  : option (res tstate) :=
  match to_visit st with
  | [] => Some (Ok st)
  | (current_id, current_depth) :: rest =>
      match fuel with
      | O => None
      | S fuel' =>
          match traverse_step G depth st current_id current_depth rest with
          | Raise e => Some (Raise e)
          | Ok st' => traverse_loop G depth fuel' st'
          end
      end
  end.

(** The number of adjacency entries of a node: what one expansion can add to
    the queue. *)
Definition degree (G : MultiDiGraph) (n : string) : nat :=
  length (succ_list G n) + length (pred_list G n).

(** A bound on the iterations left: the queue, plus what the nodes not yet
    visited can still add to it. *)
Definition budget (G : MultiDiGraph) (st : tstate) : nat :=
  length (to_visit st) +
  sum_list (map (degree G) (filter (fun n => n ∉ visited st) (node_ids G))).

(** The result dict of [traverse_from_node]; [visited_nodes] is
    [list(visited)], a list in the unspecified order of a set, kept as the
    set. *)
Record traversal := Traversal {
  start_node : string;
  visited_nodes : gset string;
  t_facts : list fact
}.

Definition init_state (node_id : string) : tstate := TState ∅ [] [(node_id, 0%Z)].

Definition traverse_from_node (G : MultiDiGraph) (node_id : string) (depth : Z)
  : option (res traversal) :=
  match traverse_loop G depth (budget G (init_state node_id)) (init_state node_id) with
  | None => None
  | Some (Raise e) => Some (Raise e)
  | Some (Ok st) => Some (Ok (Traversal node_id (visited st) (unique_facts (facts st))))
  end.

(** ** query.py: entity detection *)

Definition KNOWN_ENTITIES : list string :=
  [ "elon musk"; "elon"; "musk";
    "sam altman"; "sam"; "altman";
    "satya nadella"; "satya"; "nadella";
    "jensen huang"; "jensen"; "huang";
    "demis hassabis"; "demis"; "hassabis";
    "tesla"; "spacex"; "openai"; "microsoft"; "nvidia"; "deepmind"; "google";
    "neuralink" ].

Definition NAME_ALIASES : gmap string string :=
  list_to_map
    [ ("elon", "elon musk"); ("musk", "elon musk");
      ("sam", "sam altman"); ("altman", "sam altman");
      ("satya", "satya nadella"); ("nadella", "satya nadella");
      ("jensen", "jensen huang"); ("huang", "jensen huang");
      ("demis", "demis hassabis"); ("hassabis", "demis hassabis") ].

(** The list literal inside [detect_entities]. *)
Definition PERSON_NAMES : list string :=
  [ "musk"; "altman"; "nadella"; "huang"; "hassabis" ].

(** [sorted(l, key=len, reverse=True)]: a stable sort, so entries of equal
    length keep their order; by insertion after the entries that are at
    least as long. *)
Fixpoint insert_by_len (x : string) (l : list string) : list string :=
  match l with
  | [] => [x]
  | y :: r =>
      if (String.length x <=? String.length y)%nat then y :: insert_by_len x r
      else x :: y :: r
  end.

Definition sorted_by_len_desc (l : list string) : list string :=
  fold_left (fun acc x => insert_by_len x acc) l [].

(** A detected entity: the dict with keys ["name"], ["type"] and
    ["matched_text"]. *)
Record entity := Entity {
  ent_name : string;
  ent_type : string;
  matched_text : string
}.

Definition entity_type_of (full_name : string) : string :=
  if existsb (fun name => PyStr.str_in name full_name) PERSON_NAMES
  then "person" else "company".

(** The body of the [for entity in sorted_entities] loop. *)
Definition detect_step (question_lower : string)
    (st : gset string * list entity) (ent : string) : gset string * list entity :=
  if PyStr.str_in ent question_lower then
    let full_name := default ent (NAME_ALIASES !! ent) in
    if bool_decide (full_name ∈ st.1) then st
    else ({[full_name]} ∪ st.1,
          st.2 ++ [Entity (PyStr.title full_name) (entity_type_of full_name) ent])
  else st.

Definition detect_entities (question : string) : list entity :=
  let question_lower := PyStr.lower question in
  let sorted_entities := sorted_by_len_desc KNOWN_ENTITIES in
  (fold_left (detect_step question_lower) sorted_entities (∅, [])).2.

(** ** rag.py: rendering facts *)

Definition nl : string := String (ascii_of_nat 10) EmptyString.

Definition templates (source target : string) : gmap string string :=
  list_to_map
    [ ("founded", source +:+ " founded " +:+ target);
      ("co_founded", source +:+ " co-founded " +:+ target);
      ("leads", source +:+ " leads " +:+ target);
      ("works_at", source +:+ " works at " +:+ target);
      ("invested_in", source +:+ " invested in " +:+ target);
      ("acquired", source +:+ " acquired " +:+ target);
      ("partners_with", source +:+ " partners with " +:+ target);
      ("supplies", source +:+ " supplies to " +:+ target) ].

Definition format_single_fact (f : fact) : string :=
  let source := PyStr.fmt_opt_str (source_name f) in
  let target := PyStr.fmt_opt_str (target_name f) in
  let attrs := attributes f in
  let fallback :=
    source +:+ " " +:+ PyStr.fmt_opt_value (relation f) +:+ " " +:+ target in
  let sentence :=
    match relation f with
    | Some (VStr r) => default fallback (templates source target !! r)
    | _ => fallback
    end in
  let attr_parts :=
    match attrs !! "year" with
    | Some y => ["in " +:+ PyStr.fmt_value y] | None => [] end ++
    match attrs !! "amount" with
    | Some a => ["(" +:+ PyStr.fmt_value a +:+ ")"] | None => [] end ++
    match attrs !! "role" with
    | Some r => if bool_decide (relation f = Some (VStr "leads"))
                then ["as " +:+ PyStr.fmt_value r] else []
    | None => [] end ++
    match attrs !! "product" with
    | Some p => ["(" +:+ PyStr.fmt_value p +:+ ")"] | None => [] end in
  match attr_parts with
  | [] => sentence
  | _ => sentence +:+ " " +:+ PyStr.join " " attr_parts
  end.

(** The string [build_context] returns for an empty fact list. *)
Definition NO_INFO : string :=
  "No relevant information found in the knowledge graph.".

Definition build_context (facts : list fact) (entities : list entity) : string :=
  match facts with
  | [] => NO_INFO
  | _ =>
      let header :=
        match entities with
        | [] => []
        | _ => ["Information about: " +:+ PyStr.join ", " (map ent_name entities); ""]
        end in
      let context_parts :=
        header ++ ["Known facts:"] ++ map (fun f => "- " +:+ format_single_fact f) facts in
      PyStr.join nl context_parts
  end.

(** ** graph.py: the five stages *)

(** An entry of [matched_nodes]. *)
Record matched_node := MatchedNode {
  node_id : string;
  data : gmap string string;
  matched_entity : string
}.

(** [GraphRAGState], without the diagnostic [debug_logs]. *)
Record GraphRAGState := State {
  question : string;
  detected_entities : list entity;
  matched_nodes : list matched_node;
  traversal_results : list traversal;
  context : string;
  answer : string
}.

(** The generation service behind [LLM_CLIENT.invoke]: a reply, or an
    exception with its message. *)
Inductive llm_reply :=
  | Content (s : string)
  | Failed (msg : string).

(** The stages. Each returns the state with its update merged in; the
    module-level [KG] and [LLM_CLIENT] are arguments of the stages that read
    them. Stage 1 keeps [analyze_question(question)["detected_entities"]],
    which is [detect_entities(question)]. *)
Definition detect_entities_node (st : GraphRAGState) : GraphRAGState :=
  State (question st) (detect_entities (question st)) (matched_nodes st)
        (traversal_results st) (context st) (answer st).

(** Stage 2: for each entity in order, every node that [get_node_by_name]
    finds for its name. *)
Definition retrieve_nodes_node (KG : MultiDiGraph) (st : GraphRAGState) : GraphRAGState :=
  let matched :=
    flat_map (fun e => map (fun p => MatchedNode p.1 p.2 (ent_name e))
                           (get_node_by_name KG (ent_name e)))
             (detected_entities st) in
  State (question st) (detected_entities st) matched
        (traversal_results st) (context st) (answer st).

(** [traverse_from_node(KG, node_id, depth=1)] for each matched node, in
    order; the first traversal that does not return ends the stage. *)
Fixpoint traverse_all (KG : MultiDiGraph) (nodes : list matched_node)
  : option (res (list traversal)) :=
  match nodes with
  | [] => Some (Ok [])
  | n :: r =>
      match traverse_from_node KG (node_id n) 1 with
      | None => None
      | Some (Raise e) => Some (Raise e)
      | Some (Ok t) =>
          match traverse_all KG r with
          | None => None
          | Some (Raise e) => Some (Raise e)
          | Some (Ok ts) => Some (Ok (t :: ts))
          end
      end
  end.

Definition traverse_relationships_node (KG : MultiDiGraph) (st : GraphRAGState)
  : option (res GraphRAGState) :=
  match traverse_all KG (matched_nodes st) with
  | None => None
  | Some (Raise e) => Some (Raise e)
  | Some (Ok ts) =>
      Some (Ok (State (question st) (detected_entities st) (matched_nodes st)
                      ts (context st) (answer st)))
  end.

(** The nested loops of [build_context_node]: one [seen] set across all
    traversals. *)
Definition collect_unique_facts (traversals : list traversal) : list fact :=
  (fold_left (fun st t => fold_left dedup_step (t_facts t) st) traversals (∅, [])).2.

Definition build_context_node (st : GraphRAGState) : GraphRAGState :=
  let all_facts := collect_unique_facts (traversal_results st) in
  State (question st) (detected_entities st) (matched_nodes st)
        (traversal_results st) (build_context all_facts (detected_entities st))
        (answer st).

Definition NO_ANSWER : string :=
  "I couldn't find any relevant information in the knowledge graph to answer your question.".

Definition raw_context_answer (context : string) : string :=
  "[LLM not available - showing raw context]" +:+ nl +:+ nl +:+
  context +:+ nl +:+ nl +:+
  "Set GROQ_API_KEY environment variable to enable LLM responses.".

Definition prompt_of (context question : string) : string :=
  "You are a helpful assistant answering questions based on a knowledge graph." +:+ nl +:+
  "Use ONLY the provided context to answer. Be concise and direct." +:+ nl +:+
  "If the context doesn't contain enough information, say so." +:+ nl +:+ nl +:+
  "Context from knowledge graph:" +:+ nl +:+
  context +:+ nl +:+ nl +:+
  "Question: " +:+ question +:+ nl +:+ nl +:+
  "Answer:".

(** The state a stage leaves behind when it only sets the answer. *)
Definition with_answer (st : GraphRAGState) (a : string) : GraphRAGState :=
  State (question st) (detected_entities st) (matched_nodes st)
        (traversal_results st) (context st) a.

(** [generate_answer_node]: the new state and the prompts that were sent to
    the generation service (none, or one). *)
Definition generate_answer_node (LLM_CLIENT : option (string -> llm_reply))
    (st : GraphRAGState) : GraphRAGState * list string :=
  if PyStr.str_in "No relevant information" (context st)
  then (with_answer st NO_ANSWER, [])
  else
    match LLM_CLIENT with
    | None => (with_answer st (raw_context_answer (context st)), [])
    | Some invoke =>
        let prompt := prompt_of (context st) (question st) in
        match invoke prompt with
        | Content a => (with_answer st a, [prompt])
        | Failed e =>
            (with_answer st ("Error generating response: " +:+ e +:+ nl +:+ nl +:+
                             "Raw context:" +:+ nl +:+ context st),
             [prompt])
        end
    end.

(** [run_graph_rag]: the five stages in their fixed order, from the initial
    state. *)
Definition run_graph_rag (KG : MultiDiGraph) (LLM_CLIENT : option (string -> llm_reply))
    (q : string) : option (res (GraphRAGState * list string)) :=
  let s0 := State q [] [] [] "" "" in
  let s1 := detect_entities_node s0 in
  let s2 := retrieve_nodes_node KG s1 in
  match traverse_relationships_node KG s2 with
  | None => None
  | Some (Raise e) => Some (Raise e)
  | Some (Ok s3) => Some (Ok (generate_answer_node LLM_CLIENT (build_context_node s3)))
  end.

(** ** kg.py: statistics *)

(** The dict of [get_graph_stats]. *)
Record graph_stats := Stats {
  total_nodes : nat;
  total_edges : nat;
  people : nat;
  companies : nat
}.

Definition get_graph_stats (G : MultiDiGraph) : graph_stats :=
  Stats (length (g_nodes G)) (length (g_edges G))
        (length (filter (fun p => p.2 !! "type" = Some "person") (g_nodes G)))
        (length (filter (fun p => p.2 !! "type" = Some "company") (g_nodes G))).

(** ** query.py: relationship intents *)

(** The dict [relationship_keywords], in its insertion order. *)
Definition relationship_keywords : list (string * list string) :=
  [ ("founded", ["found"; "start"; "creat"; "establish"]);
    ("leads", ["lead"; "run"; "ceo"; "head"; "manage"]);
    ("works_at", ["work"; "employ"]);
    ("invested_in", ["invest"; "fund"; "money"]);
    ("acquired", ["acquir"; "bought"; "purchase"]);
    ("partners_with", ["partner"; "collaborat"; "work with"]);
    ("supplies", ["supply"; "provide"; "sell"]) ].

Definition extract_relationship_intent (question : string) : list string :=
  let question_lower := PyStr.lower question in
  fold_left
    (fun intents rk =>
       if existsb (fun kw => PyStr.str_in kw question_lower) rk.2
       then intents ++ [rk.1] else intents)
    relationship_keywords [].

(** The dict of [analyze_question]. *)
Record analysis := Analysis {
  original_question : string;
  analysis_entities : list entity;
  relationship_intents : list string
}.

Definition analyze_question (question : string) : analysis :=
  Analysis question (detect_entities question) (extract_relationship_intent question).

(** ** main.py: the command loop *)

(** What one round of the loop of [main] does with the line it read. *)
Inductive action :=
  | Skip
  | Quit
  | ShowHelp
  | ShowStats
  | RunPipeline (question : string).

Definition main_step (line : string) : action :=
  let question := PyStr.strip line in
  if bool_decide (question = "") then Skip
  else if bool_decide (PyStr.lower question ∈ ["quit"; "exit"; "q"]) then Quit
  else if bool_decide (PyStr.lower question = "help") then ShowHelp
  else if bool_decide (PyStr.lower question = "stats") then ShowStats
  else RunPipeline question.

(** What [input] yields: a line, or a keyboard interrupt. *)
Inductive console_event :=
  | Line (s : string)
  | Interrupt.

(** The rounds of the loop on the events it meets, until it breaks; a
    failure of the pipeline is caught and the loop goes on. *)
Fixpoint main_loop (events : list console_event) : list action :=
  match events with
  | [] => []
  | Interrupt :: _ => [Quit]
  | Line s :: rest =>
      match main_step s with
      | Quit => [Quit]
      | a => a :: main_loop rest
      end
  end.

(** * Specification vocabulary and example inputs *)

(** ** Name lookup *)

(** [sub] occurs in [s]: the meaning of Python's [sub in s]. *)
Definition substring (sub s : string) : Prop :=
  exists p q, s = p +:+ sub +:+ q.

(** The rule of the name lookup, on the lowered strings: one contains the
    other. *)
Definition mutual_substring (a b : string) : Prop :=
  substring a b \/ substring b a.

(** The lowered display name of a node; a node without ["name"] has [""]. *)
Definition lowered_name (p : string * gmap string string) : string :=
  PyStr.lower (default "" (p.2 !! "name")).

(** ** Deduplication *)

(** The deduplication loop as a function of the facts still to come, given
    the keys seen so far. *)
Fixpoint dedup_from (seen : gset fact_key) (l : list fact) : list fact :=
  match l with
  | [] => []
  | f :: r =>
      if bool_decide (key_of f ∈ seen) then dedup_from seen r
      else f :: dedup_from ({[key_of f]} ∪ seen) r
  end.

(** The first fact carrying a given key. *)
Definition first_with_key (k : fact_key) (l : list fact) : option fact :=
  head (filter (fun f => key_of f = k) l).

(** The key the specification names: source id, target id and relation
    label of a fact. *)
Definition fact_triple (f : fact) : string * string * option value :=
  (source f, target f, relation f).

(** Deduplication as the specification words it: every fact stays unless a
    fact with its triple stands before it in the list. *)
Fixpoint keep_first (l : list fact) : list fact :=
  match l with
  | [] => []
  | f :: r => f :: filter (fun g => fact_triple g <> fact_triple f) (keep_first r)
  end.

(** The first fact of a list with a given triple. *)
Definition first_with_triple (k : string * string * option value) (l : list fact)
  : option fact :=
  head (filter (fun f => fact_triple f = k) l).

(** ** Graphs and relationships *)

(** What networkx maintains for every graph: node ids are the keys of a
    dict, and the endpoints of every edge are nodes. *)
Definition wf_graph (G : MultiDiGraph) : Prop :=
  NoDup (node_ids G) /\
  Forall (fun e => e_src e ∈ node_ids G /\ e_tgt e ∈ node_ids G) (g_edges G).

Global Instance wf_graph_dec (G : MultiDiGraph) : Decision (wf_graph G).
Proof. unfold wf_graph. apply _. Defined.

(** The attribute dict of a node, and the facts of [get_node_relationships]
    once the lookups are known to succeed. *)
Definition node_data (G : MultiDiGraph) (n : string) : gmap string string :=
  default ∅ (assoc n (g_nodes G)).

Definition out_fact (G : MultiDiGraph) (n : string) (e : edge) : fact :=
  Fact "outgoing" n (node_data G n !! "name")
       (e_tgt e) (node_data G (e_tgt e) !! "name")
       (e_data e !! "relation") (delete "relation" (e_data e)).

Definition in_fact (G : MultiDiGraph) (n : string) (e : edge) : fact :=
  Fact "incoming" (e_src e) (node_data G (e_src e) !! "name")
       n (node_data G n !! "name")
       (e_data e !! "relation") (delete "relation" (e_data e)).

Definition relationships (G : MultiDiGraph) (n : string) : list fact :=
  map (out_fact G n) (out_edges_of G n) ++ map (in_fact G n) (in_edges_of G n).

(** The key under which the facts of an edge are deduplicated, the
    attributes its facts carry, and the first edge of the graph with a given
    key. *)
Definition edge_key (e : edge) : fact_key :=
  (e_src e, e_tgt e, e_data e !! "relation").

Definition edge_attributes (e : edge) : gmap string value :=
  delete "relation" (e_data e).

Definition first_edge (G : MultiDiGraph) (k : fact_key) : option edge :=
  head (filter (fun e => edge_key e = k) (g_edges G)).

(** In a list of facts, the first fact of every key comes from the first
    edge of that key. *)
Definition first_wins (G : MultiDiGraph) (l : list fact) : Prop :=
  forall k f, first_with_key k l = Some f ->
    exists e, first_edge G k = Some e /\ attributes f = edge_attributes e.

(** ** Traversal *)

(** What the nodes outside [V] can still add to the queue. *)
Definition pending (G : MultiDiGraph) (V : gset string) : nat :=
  sum_list (map (degree G) (filter (fun n => n ∉ V) (node_ids G))).

(** What one expansion adds to the queue. *)
Definition new_items (G : MultiDiGraph) (depth : Z) (c : string) (d : Z)
    (V : gset string) : list (string * Z) :=
  if (d <? depth)%Z
  then map (fun nb => (nb, (d + 1)%Z))
           (filter (fun nb => nb ∉ V) (succ_list G c ++ pred_list G c))
  else [].

(** Every queued node is a node of the graph; no queued node lies beyond
    the depth limit. *)
Definition queue_in_graph (G : MultiDiGraph) (q : list (string * Z)) : Prop :=
  forall p, p ∈ q -> p.1 ∈ node_ids G.

Definition queue_bounded (depth : Z) (q : list (string * Z)) : Prop :=
  forall p, p ∈ q -> (p.2 <= depth)%Z.

(** The states the loop of a traversal from [start] passes through. *)
Inductive reachable (G : MultiDiGraph) (depth : Z) (start : string) : tstate -> Prop :=
  | reachable_init : reachable G depth start (init_state start)
  | reachable_step st st' c d rest :
      reachable G depth start st ->
      to_visit st = (c, d) :: rest ->
      traverse_step G depth st c d rest = Ok st' ->
      reachable G depth start st'.

(** ** Construction *)

(** The seeds on which the calls of [create_knowledge_graph] bind their
    arguments: a node seed has an ["id"] and no key named like a positional
    parameter of [add_node]; the attributes of a relationship seed have no
    key ["relation"] and none named like a positional parameter of
    [add_edge]. *)
Definition node_seed_ok (seed : gmap string string) : Prop :=
  is_Some (seed !! "id") /\ seed !! "self" = None /\ seed !! "node_for_adding" = None.

Definition rel_seed_ok (r : rel_seed) : Prop :=
  r.2 !! "relation" = None /\ r.2 !! "self" = None
  /\ r.2 !! "u_for_edge" = None /\ r.2 !! "v_for_edge" = None.

Definition seed_ids (seeds : list (gmap string string)) : list string :=
  omap (fun seed => seed !! "id") seeds.

Definition seed_source (r : rel_seed) : string := r.1.1.1.
Definition seed_target (r : rel_seed) : string := r.1.1.2.

(** The integer keys of a key dict from [k] on, which bound the search of
    [new_edge_key]. *)
Definition int_key_from (k : Z) (e : edge) : bool :=
  match e_key e with
  | VInt z => (k <=? z)%Z
  | VStr _ => false
  end.

Definition keys_from (k : Z) (kd : list edge) : nat :=
  length (filter (fun e => int_key_from k e = true) kd).

(** [KG = create_knowledge_graph()] of [graph.py], on the tables of
    [data.py]. *)
Definition KG : MultiDiGraph :=
  match create_knowledge_graph PEOPLE COMPANIES RELATIONSHIPS with
  | Ok G => G
  | Raise _ => empty_graph
  end.

(** ** Entities *)

(** The canonical (lower-case) name an emitted entity was resolved to, and
    its tokens: the words between spaces. *)
Definition canonical_name (e : entity) : string :=
  default (matched_text e) (NAME_ALIASES !! matched_text e).

Definition name_tokens (full_name : string) : list string :=
  PyStr.split_on " "%char "" full_name.

Definition has_person_token (full_name : string) : bool :=
  existsb (fun tok => bool_decide (tok ∈ PERSON_NAMES)) (name_tokens full_name).

(** The entity the loop emits for a catalog entry. *)
Definition entity_of (ent : string) : entity :=
  let full_name := default ent (NAME_ALIASES !! ent) in
  Entity (PyStr.title full_name) (entity_type_of full_name) ent.

(** What holds of every entity the catalog can produce. *)
Definition kind_by_tokens (e : entity) : Prop :=
  matched_text e ∈ KNOWN_ENTITIES
  /\ ent_name e = PyStr.title (canonical_name e)
  /\ ent_type e = (if has_person_token (canonical_name e) then "person" else "company").

(** ** Example inputs *)

(** A graph with one node and one edge, from the node to itself. *)
Definition loop_graph : MultiDiGraph :=
  add_edge (add_node empty_graph "a" ∅) "a" "a" None {["relation" := VStr "cites"]}.

(** A directed three-cycle with a chord back, to run the traversal on a
    cyclic multigraph. *)
Definition cycle_graph : MultiDiGraph :=
  let G := add_node (add_node (add_node empty_graph "a" ∅) "b" ∅) "c" ∅ in
  let G := add_edge G "a" "b" None {["relation" := VStr "r"]} in
  let G := add_edge G "b" "c" None {["relation" := VStr "r"]} in
  let G := add_edge G "c" "a" None {["relation" := VStr "r"]} in
  add_edge G "b" "a" None {["relation" := VStr "s"]}.

(** Two nodes with two parallel edges of the same relation and different
    attributes. *)
Definition parallel_graph : MultiDiGraph :=
  let G := add_node (add_node empty_graph "a" ∅) "b" ∅ in
  let G := add_edge G "a" "b" None
             (<["relation" := VStr "invested_in"]> {["year" := VInt 2019]}) in
  add_edge G "a" "b" None
    (<["relation" := VStr "invested_in"]> {["year" := VInt 2023]}).

Definition parallel_first : edge :=
  Edge "a" "b" (VInt 0) (<["relation" := VStr "invested_in"]> {["year" := VInt 2019]}).

Definition parallel_second : edge :=
  Edge "a" "b" (VInt 1) (<["relation" := VStr "invested_in"]> {["year" := VInt 2023]}).

Definition parallel_traversal : traversal :=
  Traversal "b" (list_to_set ["b"; "a"])
    [Fact "incoming" "a" None "b" None (Some (VStr "invested_in")) {["year" := VInt 2019]}].

(** Seeds with a relationship whose target is no node seed. *)
Definition dangling_people : list (gmap string string) :=
  [ list_to_map [("id", "p1"); ("name", "Elon Musk"); ("type", "person")] ].

Definition dangling_relationships : list rel_seed :=
  [ ("p1", "c9", "founded", {["year" := VInt 2003]}) ].

(** Seeds of a graph in which a company name contains the phrase the
    generation stage looks for. *)
Definition misleading_companies : list (gmap string string) :=
  [ list_to_map [("id", "c1"); ("name", "Tesla"); ("type", "company")];
    list_to_map [("id", "s1"); ("name", "No relevant information Ltd"); ("type", "company")] ].

Definition misleading_relationships : list rel_seed :=
  [ ("s1", "c1", "supplies", ∅) ].

Definition misleading_graph : MultiDiGraph :=
  match create_knowledge_graph [] misleading_companies misleading_relationships with
  | Ok G => G
  | Raise _ => empty_graph
  end.

(** ** Vocabulary of the further properties *)

(** An event on which the loop of [main] breaks. *)
Definition quits (e : console_event) : Prop :=
  match e with
  | Interrupt => True
  | Line s => main_step s = Quit
  end.

(** The attributes a node ends up with when several seeds carry its id: each
    later seed updates the dict of the earlier ones. *)
Definition merged_seed (n : string) (seeds : list (gmap string string))
  : gmap string string :=
  fold_left (fun acc seed => seed ∪ acc)
            (filter (fun seed => seed !! "id" = Some n) seeds) ∅.

(** The endpoints, key and data of an edge, and what a relationship seed
    without a ["key"] attribute puts into the graph. *)
Definition edge_triple (e : edge) : string * string * gmap string value :=
  (e_src e, e_tgt e, e_data e).

Definition seed_triple (r : rel_seed) : string * string * gmap string value :=
  (seed_source r, seed_target r, <["relation" := VStr r.1.2]> r.2).

Definition seed_endpoints (R : list rel_seed) : list string :=
  flat_map (fun r => [seed_source r; seed_target r]) R.

(** [NAME_ALIASES.get(entity, entity)]: the canonical name of a surface
    form. *)
Definition resolve (ent : string) : string := default ent (NAME_ALIASES !! ent).

(** The detection loop as a function of the surface forms still to come,
    given the canonical names seen so far. *)
Fixpoint detect_from (ql : string) (seen : gset string) (l : list string)
  : list entity :=
  match l with
  | [] => []
  | ent :: r =>
      if PyStr.str_in ent ql then
        if bool_decide (resolve ent ∈ seen) then detect_from ql seen r
        else entity_of ent :: detect_from ql ({[resolve ent]} ∪ seen) r
      else detect_from ql seen r
  end.

(** Not shorter: the order of [sorted(..., key=len, reverse=True)]. *)
Definition longer_eq (a b : string) : Prop :=
  (String.length b <= String.length a)%nat.

(** A fact with other attributes. *)
Definition with_attributes (f : fact) (attrs : gmap string value) : fact :=
  Fact (direction f) (source f) (source_name f) (target f) (target_name f)
       (relation f) attrs.

(** The relation labels that have a sentence template. *)
Definition template_relations : list string :=
  ["founded"; "co_founded"; "leads"; "works_at"; "invested_in"; "acquired";
   "partners_with"; "supplies"].

(** An integer that Python prints: at most 4300 decimal digits. *)
Definition int_printable (z : Z) : Prop := (Z.abs z < 10 ^ 4300)%Z.

Definition value_printable (v : value) : Prop :=
  match v with
  | VStr _ => True
  | VInt z => int_printable z
  end.

Global Instance value_printable_dec (v : value) : Decision (value_printable v).
Proof. destruct v; unfold value_printable, int_printable; apply _. Defined.

(** The values of a fact that [format_single_fact] may print: the relation
    and the attributes [year], [amount], [role] and [product]. *)
Definition printed_values (f : fact) : list value :=
  option_list (relation f)
  ++ omap (fun k => attributes f !! k) ["year"; "amount"; "role"; "product"].

(** A fact whose printed values Python prints. *)
Definition fact_printable (f : fact) : Prop :=
  Forall value_printable (printed_values f).

(** The fact of the shipped graph that Elon Musk founded Tesla in 2003. *)
Definition tesla_founded : fact :=
  Fact "outgoing" "p1" (Some "Elon Musk") "c1" (Some "Tesla")
       (Some (VStr "founded")) (<["year" := VInt 2003]> ∅).

(** * Properties *)

#[local] Arguments String.append _ _ : simpl nomatch.

(** ** Loops that append *)

Section AppendLoops.
Context {A : Type}.

(** A loop that appends the elements passing a test is a filter. *)
Lemma fold_left_append_filter (P : A -> bool) (l acc : list A) :
  fold_left (fun acc x => if P x then acc ++ [x] else acc) l acc
  = acc ++ filter (fun x => P x = true) l.
Proof.
  revert acc. induction l as [|x l IH]; intros acc; simpl.
  - by rewrite app_nil_r.
  - rewrite IH. rewrite filter_cons. destruct (P x) eqn:HP.
    + rewrite decide_True by done. by rewrite <- app_assoc.
    + by rewrite decide_False by (by intros ?).
Qed.

(** A loop of [foldM] that appends one computed element per round is a
    [mapM]. *)
Lemma foldM_append_mapM {B} (f : A -> res B) (l : list A) (acc : list B) :
  foldM (fun rels x => y ← f x; Ok (rels ++ [y])) acc l
  = (ys ← mapM f l; Ok (acc ++ ys)).
Proof.
  revert acc. induction l as [|x l IH]; intros acc; simpl.
  - by rewrite app_nil_r.
  - unfold mbind, res_bind. destruct (f x) as [y|e]; [|done].
    rewrite IH. unfold mbind, res_bind.
    destruct (mapM f l) as [ys|e]; [|done].
    by rewrite <- app_assoc.
Qed.

Lemma mapM_ok {B} (f : A -> res B) (g : A -> B) (l : list A) :
  (forall x, x ∈ l -> f x = Ok (g x)) -> mapM f l = Ok (map g l).
Proof.
  induction l as [|x l IH]; intros H; simpl; [done|].
  rewrite H by left. unfold mbind, res_bind.
  rewrite IH; [done|]. intros y Hy. apply H. by right.
Qed.
End AppendLoops.

(** ** Substrings *)

Lemma string_app_nil_r (s : string) : s +:+ "" = s.
Proof. induction s; simpl; congruence. Qed.

Lemma starts_with_spec (a s : string) :
  PyStr.starts_with a s = true <-> exists q, s = a +:+ q.
Proof.
  revert s. induction a as [|c a IH]; intros s; simpl.
  - split; [intros _; by exists s | done].
  - destruct s as [|d s].
    + split; [done | intros [q Hq]; discriminate].
    + rewrite andb_true_iff, Ascii.eqb_eq, IH. split.
      * intros [-> [q ->]]. by exists q.
      * intros [q Hq]. injection Hq as -> ->. split; [done | by exists q].
Qed.

Lemma str_in_spec (sub s : string) :
  PyStr.str_in sub s = true <-> substring sub s.
Proof.
  induction s as [|c s IH]; simpl.
  - rewrite orb_false_r, starts_with_spec. split.
    + intros [q Hq]. by exists "", q.
    + intros ([|? ?] & q & Hq); [by exists q | discriminate].
  - rewrite orb_true_iff, starts_with_spec, IH. split.
    + intros [[q Hq] | (p & q & Hq)].
      * by exists "", q.
      * exists (String c p), q. simpl. by rewrite Hq.
    + intros ([|d p] & q & Hq).
      * left. by exists q.
      * right. exists p, q. simpl in Hq. congruence.
Qed.

Global Instance substring_dec : RelDecision substring.
Proof.
  intros sub s. destruct (PyStr.str_in sub s) eqn:H.
  - left. by apply str_in_spec.
  - right. intros Hs. apply str_in_spec in Hs. congruence.
Defined.

Lemma substring_empty (s : string) : substring "" s.
Proof. by exists "", s. Qed.

Lemma name_matches_spec (q : string) (p : string * gmap string string) :
  name_matches q p.2 = true <-> mutual_substring q (lowered_name p).
Proof.
  unfold name_matches, mutual_substring, lowered_name.
  by rewrite orb_true_iff, !str_in_spec.
Qed.

Lemma get_node_by_name_filter (G : MultiDiGraph) (name : string) :
  get_node_by_name G name
  = filter (fun p => name_matches (PyStr.lower name) p.2 = true) (g_nodes G).
Proof. unfold get_node_by_name. by rewrite fold_left_append_filter. Qed.

(** C6: the lookup returns, in the order of the node table, exactly the
    nodes whose lowered name contains the lowered query or is contained in
    it; the rule is symmetric in its two strings, so a query that extends a
    node name matches it. *)
Theorem get_node_by_name_mutual_substring (G : MultiDiGraph) (query : string) :
  get_node_by_name G query
  = filter (fun p => mutual_substring (PyStr.lower query) (lowered_name p)) (g_nodes G)
  /\ (forall p, p ∈ get_node_by_name G query <->
        p ∈ g_nodes G /\
        (substring (PyStr.lower query) (lowered_name p) \/
         substring (lowered_name p) (PyStr.lower query)))
  /\ (forall a b, mutual_substring a b <-> mutual_substring b a)
  /\ (forall p, p ∈ g_nodes G ->
        substring (lowered_name p) (PyStr.lower query) ->
        p ∈ get_node_by_name G query).
Proof.
  assert (Heq : get_node_by_name G query
    = filter (fun p => mutual_substring (PyStr.lower query) (lowered_name p)) (g_nodes G)).
  { rewrite get_node_by_name_filter. apply list_filter_iff.
    intros p. apply name_matches_spec. }
  split; [exact Heq|]. rewrite Heq. split; [|split].
  - intros p. rewrite list_elem_of_filter. unfold mutual_substring. tauto.
  - intros a b. unfold mutual_substring. tauto.
  - intros p Hp Hsub. apply list_elem_of_filter. split; [by right | done].
Qed.

(** C10: the empty query matches every node, a node without a name
    included, because the empty string occurs in every string. *)
Theorem get_node_by_name_empty_query (G : MultiDiGraph) :
  get_node_by_name G "" = g_nodes G.
Proof.
  rewrite get_node_by_name_filter. simpl.
  induction (g_nodes G) as [|p l IH]; [done|].
  rewrite filter_cons. rewrite decide_True.
  - by rewrite IH.
  - apply name_matches_spec. left. apply substring_empty.
Qed.

(** ** Deduplication by key *)

Lemma fold_dedup_step (l : list fact) (seen : gset fact_key) (acc : list fact) :
  fold_left dedup_step l (seen, acc)
  = (seen ∪ list_to_set (map key_of l), acc ++ dedup_from seen l).
Proof.
  revert seen acc. induction l as [|f l IH]; intros seen acc; simpl.
  - rewrite app_nil_r. f_equal. set_solver.
  - unfold dedup_step at 2. simpl. case_bool_decide as Hin.
    + rewrite IH. f_equal. set_solver.
    + rewrite IH. rewrite <- app_assoc. simpl. f_equal. set_solver.
Qed.

Lemma unique_facts_dedup_from (l : list fact) : unique_facts l = dedup_from ∅ l.
Proof. unfold unique_facts. by rewrite fold_dedup_step. Qed.

Lemma dedup_from_sublist (seen : gset fact_key) (l : list fact) :
  sublist (dedup_from seen l) l.
Proof.
  revert seen. induction l as [|f l IH]; intros seen; simpl; [done|].
  case_bool_decide; [apply sublist_cons | apply sublist_skip]; apply IH.
Qed.

Lemma dedup_from_fresh (seen : gset fact_key) (l : list fact) (f : fact) :
  f ∈ dedup_from seen l -> key_of f ∉ seen.
Proof.
  revert seen. induction l as [|g l IH]; intros seen; simpl.
  - by intros ?%elem_of_nil.
  - case_bool_decide as Hin.
    + apply IH.
    + intros [->|Hf]%elem_of_cons; [done|].
      apply IH in Hf. set_solver.
Qed.

Lemma dedup_from_NoDup (seen : gset fact_key) (l : list fact) :
  NoDup (map key_of (dedup_from seen l)).
Proof.
  revert seen. induction l as [|f l IH]; intros seen; simpl.
  - constructor.
  - case_bool_decide as Hin; [apply IH|].
    simpl. constructor; [|apply IH].
    intros (g & Hk & Hg)%list_elem_of_fmap.
    apply dedup_from_fresh in Hg. apply Hg. rewrite <- Hk.
    by apply elem_of_union_l, elem_of_singleton.
Qed.

Lemma first_with_key_cons (k : fact_key) (f : fact) (l : list fact) :
  first_with_key k (f :: l)
  = if decide (key_of f = k) then Some f else first_with_key k l.
Proof. unfold first_with_key. rewrite filter_cons. by case_decide. Qed.

Lemma first_with_key_app (k : fact_key) (l1 l2 : list fact) :
  first_with_key k (l1 ++ l2)
  = match first_with_key k l1 with
    | Some f => Some f
    | None => first_with_key k l2
    end.
Proof.
  induction l1 as [|f l1 IH]; simpl; [done|].
  rewrite !first_with_key_cons. by case_decide.
Qed.

Lemma first_with_key_None (k : fact_key) (l : list fact) :
  first_with_key k l = None <-> forall f, f ∈ l -> key_of f ≠ k.
Proof.
  induction l as [|g l IH].
  - split; [by intros _ f ?%elem_of_nil | done].
  - rewrite first_with_key_cons. case_decide as Hk.
    + split; [done|]. intros H. exfalso. by apply (H g); [left|].
    + rewrite IH. split.
      * intros H f [->|Hf]%elem_of_cons; [done | by apply H].
      * intros H f Hf. apply H. by right.
Qed.

Lemma first_with_key_Some (k : fact_key) (l : list fact) (f : fact) :
  first_with_key k l = Some f -> f ∈ l /\ key_of f = k.
Proof.
  unfold first_with_key. intros H%head_Some_elem_of.
  by apply list_elem_of_filter in H as [? ?].
Qed.

Lemma first_with_key_unique (k : fact_key) (l : list fact) (f : fact) :
  NoDup (map key_of l) -> f ∈ l -> key_of f = k -> first_with_key k l = Some f.
Proof.
  induction l as [|g l IH]; simpl; intros Hnd Hf Hk.
  - by apply elem_of_nil in Hf.
  - apply NoDup_cons in Hnd as [Hg Hnd]. rewrite first_with_key_cons.
    apply elem_of_cons in Hf as [->|Hf].
    + by rewrite decide_True.
    + rewrite decide_False; [by apply IH|].
      intros Hgk. apply Hg. apply list_elem_of_fmap. exists f. split; [congruence|done].
Qed.

Lemma dedup_from_first (seen : gset fact_key) (l : list fact) (k : fact_key) :
  k ∉ seen -> first_with_key k (dedup_from seen l) = first_with_key k l.
Proof.
  revert seen. induction l as [|f l IH]; intros seen Hk; simpl; [done|].
  case_bool_decide as Hin.
  - rewrite first_with_key_cons, decide_False by (intros <-; done). by apply IH.
  - rewrite !first_with_key_cons. case_decide; [done|]. apply IH. set_solver.
Qed.

Lemma dedup_from_fixed (seen : gset fact_key) (l : list fact) :
  NoDup (map key_of l) -> (forall f, f ∈ l -> key_of f ∉ seen) ->
  dedup_from seen l = l.
Proof.
  revert seen. induction l as [|f l IH]; intros seen Hnd Hfresh; simpl; [done|].
  apply NoDup_cons in Hnd as [Hf Hnd].
  rewrite bool_decide_eq_false_2 by (apply Hfresh; left).
  f_equal. apply IH; [done|]. intros g Hg.
  assert (key_of g ≠ key_of f).
  { intros Heq. apply Hf. apply list_elem_of_fmap. by exists g. }
  assert (key_of g ∉ seen) by (apply Hfresh; by right).
  set_solver.
Qed.

Lemma collect_unique_facts_concat (ts : list traversal) :
  collect_unique_facts ts = unique_facts (concat (map t_facts ts)).
Proof.
  unfold collect_unique_facts, unique_facts.
  generalize (∅ : gset fact_key, [] : list fact).
  induction ts as [|t ts IH]; intros st; simpl; [done|].
  by rewrite fold_left_app, IH.
Qed.

(** The key of the code is the triple of the specification. *)
Lemma key_of_fact_triple (f : fact) : key_of f = fact_triple f.
Proof. reflexivity. Qed.

Lemma first_with_key_triple (k : fact_key) (l : list fact) :
  first_with_key k l = first_with_triple k l.
Proof. reflexivity. Qed.

(** The loop with a set of seen keys keeps, of the facts that
    [keep_first] keeps, those whose triple was not seen before. *)
Lemma dedup_from_keep_first (seen : gset fact_key) (l : list fact) :
  dedup_from seen l = filter (fun g => fact_triple g ∉ seen) (keep_first l).
Proof.
  revert seen. induction l as [|f l IH]; intros seen; [done|].
  cbn [dedup_from keep_first]. rewrite key_of_fact_triple.
  case_bool_decide as Hin.
  - rewrite filter_cons_False by (intros Hn; by apply Hn).
    rewrite IH, list_filter_filter. apply list_filter_iff.
    intros g. split; [|tauto]. intros Hg. split; [done|].
    intros Heq. apply Hg. by rewrite Heq.
  - rewrite filter_cons_True by done. f_equal.
    rewrite IH, list_filter_filter. apply list_filter_iff.
    intros g. rewrite not_elem_of_union, not_elem_of_singleton. tauto.
Qed.

Lemma filter_all {A} (P : A -> Prop) `{!forall x, Decision (P x)} (l : list A) :
  (forall x, x ∈ l -> P x) -> filter P l = l.
Proof.
  induction l as [|x l IH]; intros Hall; [done|].
  rewrite filter_cons_True by (apply Hall; by left).
  f_equal. apply IH. intros y Hy. apply Hall. by right.
Qed.

Lemma unique_facts_keep_first (l : list fact) : unique_facts l = keep_first l.
Proof.
  rewrite unique_facts_dedup_from, dedup_from_keep_first.
  apply filter_all. intros g _. apply not_elem_of_empty.
Qed.

(** C8: deduplication by the triple of source id, target id and relation
    label keeps every fact before which no fact with its triple stands, in
    the order of the input: the result is an ordered sub-list of the input
    with pairwise distinct triples, in which every triple of the input is
    represented by its first occurrence. On a list whose triples are
    already distinct it changes nothing, so a second run returns the list
    of the first; the context stage runs the same deduplication on the
    concatenated traversal results. *)
Theorem unique_facts_idempotent_order_preserving (l : list fact) :
  unique_facts l = keep_first l
  /\ sublist (unique_facts l) l
  /\ NoDup (map fact_triple (unique_facts l))
  /\ (forall k, first_with_triple k (unique_facts l) = first_with_triple k l)
  /\ (NoDup (map fact_triple l) -> unique_facts l = l)
  /\ unique_facts (unique_facts l) = unique_facts l
  /\ (forall ts, collect_unique_facts ts = unique_facts (concat (map t_facts ts)))
  /\ (forall ts, collect_unique_facts ts = keep_first (concat (map t_facts ts))).
Proof.
  split; [apply unique_facts_keep_first|].
  rewrite !unique_facts_dedup_from. split; [apply dedup_from_sublist|].
  split; [apply (dedup_from_NoDup ∅ l)|].
  split.
  { intros k. rewrite <- !first_with_key_triple. apply dedup_from_first. set_solver. }
  split.
  { intros Hnd. apply dedup_from_fixed; [exact Hnd | set_solver]. }
  split.
  { apply dedup_from_fixed; [apply dedup_from_NoDup | set_solver]. }
  split.
  - intros ts. by rewrite collect_unique_facts_concat, unique_facts_dedup_from.
  - intros ts. by rewrite collect_unique_facts_concat, unique_facts_keep_first.
Qed.

(** ** Well-formed graphs *)

Lemma has_node_true (G : MultiDiGraph) (n : string) :
  has_node G n = true <-> n ∈ node_ids G.
Proof. unfold has_node. apply bool_decide_eq_true. Qed.

Lemma assoc_elem_of {V} (k : string) (l : list (string * V)) :
  k ∈ l.*1 -> exists v, assoc k l = Some v.
Proof.
  induction l as [|[k' v] l IH]; simpl.
  - by intros ?%elem_of_nil.
  - intros [->|Hk]%elem_of_cons.
    + exists v. by rewrite decide_True.
    + case_decide; [by exists v | by apply IH].
Qed.

Lemma nodes_get_ok (G : MultiDiGraph) (n : string) :
  n ∈ node_ids G -> nodes_get G n = Ok (node_data G n).
Proof.
  intros [d Hd]%assoc_elem_of. unfold nodes_get, node_data. by rewrite Hd.
Qed.

Lemma uniq_elem_of (l : list string) (x : string) : x ∈ uniq l <-> x ∈ l.
Proof.
  induction l as [|y l IH]; simpl; [done|].
  rewrite !elem_of_cons, list_elem_of_filter, IH.
  destruct (decide (x = y)); naive_solver.
Qed.

Lemma uniq_NoDup (l : list string) : NoDup (uniq l).
Proof.
  induction l as [|y l IH]; simpl; [constructor|].
  constructor.
  - rewrite list_elem_of_filter. naive_solver.
  - by apply NoDup_filter.
Qed.

Lemma filter_none {A} (P : A -> Prop) `{!forall x, Decision (P x)} (l : list A) :
  (forall x, x ∈ l -> ~ P x) -> filter P l = [].
Proof.
  induction l as [|x l IH]; intros Hn; [done|].
  rewrite filter_cons, decide_False by (apply Hn; left).
  apply IH. intros y Hy. apply Hn. by right.
Qed.

Section Grouping.
Context {A : Type} (k : A -> string).

(** Listing the elements of [l] group by group, for a duplicate-free list
    of group labels: restricted to one group, it is [l] restricted to that
    group. *)
Lemma filter_grouped (Q : A -> Prop) `{!forall x, Decision (Q x)}
    (t : string) (l : list A) (U : list string) :
  NoDup U -> (forall x, x ∈ l -> k x ∈ U) -> (forall x, Q x -> k x = t) ->
  filter Q (flat_map (fun v => filter (fun x => k x = v) l) U) = filter Q l.
Proof.
  intros HU Hcover HQ.
  assert (Hoff : forall v, v ≠ t -> filter Q (filter (fun x => k x = v) l) = []).
  { intros v Hv. apply filter_none.
    intros x [Hkx _]%list_elem_of_filter HQx. apply HQ in HQx. congruence. }
  assert (Hon : filter Q (filter (fun x => k x = t) l) = filter Q l).
  { rewrite list_filter_filter. apply list_filter_iff. naive_solver. }
  destruct (decide (t ∈ U)) as [Ht|Ht].
  - clear Hcover. induction U as [|v U IH]; [by apply elem_of_nil in Ht|].
    apply NoDup_cons in HU as [Hv HU]. simpl. rewrite filter_app.
    destruct (decide (v = t)) as [->|Hvt].
    + rewrite Hon.
      assert (Hrest : filter Q (flat_map (fun v => filter (fun x => k x = v) l) U) = []).
      { clear IH Ht HU. induction U as [|u U IH]; [done|]. simpl.
        rewrite filter_app, Hoff, IH; [done| |].
        - intros ?. apply Hv. by right.
        - intros ->. apply Hv. by left. }
      by rewrite Hrest, app_nil_r.
    + rewrite Hoff by done. simpl. apply IH; [done|].
      apply elem_of_cons in Ht as [?|?]; [congruence|done].
  - assert (Hnone : filter Q l = []).
    { apply filter_none. intros x Hx HQx.
      apply Ht. rewrite <- (HQ x HQx). by apply Hcover. }
    rewrite Hnone. clear Hcover HU Hon Hnone.
    induction U as [|v U IH]; [done|]. simpl.
    rewrite filter_app, Hoff, IH; [done| |].
    + intros ?. apply Ht. by right.
    + intros ->. apply Ht. by left.
Qed.

(** Grouping rearranges: every element is listed once. *)
Lemma grouped_Permutation (l : list A) (U : list string) :
  NoDup U -> (forall x, x ∈ l -> k x ∈ U) ->
  flat_map (fun v => filter (fun x => k x = v) l) U ≡ₚ l.
Proof.
  intros HU. induction l as [|x l IH]; intros Hcover.
  - clear HU Hcover. induction U as [|v U IH]; [done|]. simpl. by rewrite IH.
  - assert (Hx : k x ∈ U) by (apply Hcover; left).
    assert (Hl : forall y, y ∈ l -> k y ∈ U) by (intros y Hy; apply Hcover; by right).
    etrans; [|apply Permutation_skip, (IH Hl)]. clear IH Hcover Hl.
    induction U as [|v U IH]; [by apply elem_of_nil in Hx|].
    apply NoDup_cons in HU as [Hv HU]. simpl.
    rewrite filter_cons. destruct (decide (k x = v)) as [Hkv|Hkv].
    + simpl. f_equiv. f_equiv.
      assert (Hsame : forall W, k x ∉ W ->
        flat_map (fun v => filter (fun y => k y = v) (x :: l)) W
        = flat_map (fun v => filter (fun y => k y = v) l) W).
      { clear. induction W as [|w W IHW]; intros Hw; [done|]. simpl.
        rewrite filter_cons, decide_False, IHW; [done| |].
        - intros ?. apply Hw. by right.
        - intros ?. apply Hw. subst. by left. }
      rewrite Hsame; [done | by rewrite Hkv].
    + apply elem_of_cons in Hx as [?|Hx]; [done|].
      rewrite (IH HU Hx).
      by rewrite Permutation_middle.
Qed.
End Grouping.

(** ** Relationships of a node *)

Lemma keydict_filter (G : MultiDiGraph) (u v : string) :
  keydict G u v
  = filter (fun e => e_tgt e = v) (filter (fun e => e_src e = u) (g_edges G)).
Proof.
  unfold keydict. rewrite list_filter_filter. apply list_filter_iff. naive_solver.
Qed.

Lemma keydict_filter_src (G : MultiDiGraph) (u v : string) :
  keydict G u v
  = filter (fun e => e_src e = u) (filter (fun e => e_tgt e = v) (g_edges G)).
Proof. unfold keydict. by rewrite list_filter_filter. Qed.

Lemma out_edges_of_grouped (G : MultiDiGraph) (n : string) :
  out_edges_of G n
  = flat_map (fun v => filter (fun e => e_tgt e = v)
                              (filter (fun e => e_src e = n) (g_edges G)))
             (succ_list G n).
Proof.
  unfold out_edges_of. induction (succ_list G n) as [|v U IH]; [done|].
  simpl. by rewrite IH, keydict_filter.
Qed.

Lemma in_edges_of_grouped (G : MultiDiGraph) (n : string) :
  in_edges_of G n
  = flat_map (fun u => filter (fun e => e_src e = u)
                              (filter (fun e => e_tgt e = n) (g_edges G)))
             (pred_list G n).
Proof.
  unfold in_edges_of. induction (pred_list G n) as [|v U IH]; [done|].
  simpl. by rewrite IH, keydict_filter_src.
Qed.

Lemma succ_list_cover (G : MultiDiGraph) (n : string) (e : edge) :
  e ∈ filter (fun e => e_src e = n) (g_edges G) -> e_tgt e ∈ succ_list G n.
Proof.
  intros He. unfold succ_list. apply uniq_elem_of.
  apply list_elem_of_fmap. by exists e.
Qed.

Lemma pred_list_cover (G : MultiDiGraph) (n : string) (e : edge) :
  e ∈ filter (fun e => e_tgt e = n) (g_edges G) -> e_src e ∈ pred_list G n.
Proof.
  intros He. unfold pred_list. apply uniq_elem_of.
  apply list_elem_of_fmap. by exists e.
Qed.

Lemma out_edges_of_Permutation (G : MultiDiGraph) (n : string) :
  out_edges_of G n ≡ₚ filter (fun e => e_src e = n) (g_edges G).
Proof.
  rewrite out_edges_of_grouped. apply (grouped_Permutation e_tgt).
  - apply uniq_NoDup.
  - apply succ_list_cover.
Qed.

Lemma in_edges_of_Permutation (G : MultiDiGraph) (n : string) :
  in_edges_of G n ≡ₚ filter (fun e => e_tgt e = n) (g_edges G).
Proof.
  rewrite in_edges_of_grouped. apply (grouped_Permutation e_src).
  - apply uniq_NoDup.
  - apply pred_list_cover.
Qed.

Lemma out_edges_of_elem (G : MultiDiGraph) (n : string) (e : edge) :
  e ∈ out_edges_of G n <-> e ∈ g_edges G /\ e_src e = n.
Proof. rewrite out_edges_of_Permutation, list_elem_of_filter. tauto. Qed.

Lemma in_edges_of_elem (G : MultiDiGraph) (n : string) (e : edge) :
  e ∈ in_edges_of G n <-> e ∈ g_edges G /\ e_tgt e = n.
Proof. rewrite in_edges_of_Permutation, list_elem_of_filter. tauto. Qed.

Lemma wf_edge_endpoints (G : MultiDiGraph) (e : edge) :
  wf_graph G -> e ∈ g_edges G -> e_src e ∈ node_ids G /\ e_tgt e ∈ node_ids G.
Proof. intros [_ Hwf] He. by apply (proj1 (Forall_forall _ _) Hwf). Qed.

Lemma nbunch_iter_node (G : MultiDiGraph) (n : string) :
  n ∈ node_ids G -> nbunch_iter G n = [n].
Proof. intros Hn. unfold nbunch_iter. by rewrite (proj2 (has_node_true G n)). Qed.

Lemma get_node_relationships_ok (G : MultiDiGraph) (n : string) :
  wf_graph G -> n ∈ node_ids G ->
  get_node_relationships G n = Ok (relationships G n).
Proof.
  intros Hwf Hn. unfold get_node_relationships, out_edges, in_edges.
  rewrite (nbunch_iter_node G n Hn). simpl. rewrite !app_nil_r.
  rewrite foldM_append_mapM.
  rewrite (mapM_ok _ (out_fact G n)).
  - simpl. rewrite foldM_append_mapM.
    rewrite (mapM_ok _ (in_fact G n)); [done|].
    intros e [He _]%in_edges_of_elem.
    destruct (wf_edge_endpoints G e Hwf He) as [Hs _].
    unfold incoming_fact. by rewrite !nodes_get_ok.
  - intros e [He _]%out_edges_of_elem.
    destruct (wf_edge_endpoints G e Hwf He) as [_ Ht].
    unfold outgoing_fact. by rewrite !nodes_get_ok.
Qed.

(** C5, as the code has it: for a node of a graph, the relationships are
    one outgoing fact per edge that leaves the node followed by one incoming
    fact per edge that enters it, each tagged with its direction and
    carrying the node as source, respectively target; no edge end is
    dropped, so their number is the out-degree plus the in-degree. *)
Theorem get_node_relationships_both_directions (G : MultiDiGraph) (n : string) :
  wf_graph G -> n ∈ node_ids G ->
  exists outs ins,
    outs ≡ₚ filter (fun e => e_src e = n) (g_edges G)
    /\ ins ≡ₚ filter (fun e => e_tgt e = n) (g_edges G)
    /\ get_node_relationships G n
       = Ok (map (out_fact G n) outs ++ map (in_fact G n) ins)
    /\ (forall e, direction (out_fact G n e) = "outgoing"
                  /\ source (out_fact G n e) = n
                  /\ target (out_fact G n e) = e_tgt e
                  /\ relation (out_fact G n e) = e_data e !! "relation"
                  /\ attributes (out_fact G n e) = delete "relation" (e_data e))
    /\ (forall e, direction (in_fact G n e) = "incoming"
                  /\ source (in_fact G n e) = e_src e
                  /\ target (in_fact G n e) = n
                  /\ relation (in_fact G n e) = e_data e !! "relation"
                  /\ attributes (in_fact G n e) = delete "relation" (e_data e))
    /\ length (map (out_fact G n) outs ++ map (in_fact G n) ins)
       = (length (filter (fun e => e_src e = n) (g_edges G))
          + length (filter (fun e => e_tgt e = n) (g_edges G)))%nat.
Proof.
  intros Hwf Hn. exists (out_edges_of G n), (in_edges_of G n).
  split; [apply out_edges_of_Permutation|].
  split; [apply in_edges_of_Permutation|].
  split; [by apply get_node_relationships_ok|].
  split; [done|]. split; [done|].
  rewrite length_app, !length_map.
  by rewrite out_edges_of_Permutation, in_edges_of_Permutation.
Qed.

(** The statement of C5 on the one node of [loop_graph]. *)
Lemma get_node_relationships_both_directions_witness :
  exists outs ins,
    outs ≡ₚ filter (fun e => e_src e = "a") (g_edges loop_graph)
    /\ ins ≡ₚ filter (fun e => e_tgt e = "a") (g_edges loop_graph)
    /\ get_node_relationships loop_graph "a"
       = Ok (map (out_fact loop_graph "a") outs ++ map (in_fact loop_graph "a") ins)
    /\ (forall e, direction (out_fact loop_graph "a" e) = "outgoing"
                  /\ source (out_fact loop_graph "a" e) = "a"
                  /\ target (out_fact loop_graph "a" e) = e_tgt e
                  /\ relation (out_fact loop_graph "a" e) = e_data e !! "relation"
                  /\ attributes (out_fact loop_graph "a" e) = delete "relation" (e_data e))
    /\ (forall e, direction (in_fact loop_graph "a" e) = "incoming"
                  /\ source (in_fact loop_graph "a" e) = e_src e
                  /\ target (in_fact loop_graph "a" e) = "a"
                  /\ relation (in_fact loop_graph "a" e) = e_data e !! "relation"
                  /\ attributes (in_fact loop_graph "a" e) = delete "relation" (e_data e))
    /\ length (map (out_fact loop_graph "a") outs ++ map (in_fact loop_graph "a") ins)
       = (length (filter (fun e => e_src e = "a") (g_edges loop_graph))
          + length (filter (fun e => e_tgt e = "a") (g_edges loop_graph)))%nat.
Proof.
  apply (get_node_relationships_both_directions loop_graph "a").
  - apply (bool_decide_unpack _). vm_compute. exact I.
  - apply (bool_decide_unpack _). vm_compute. exact I.
Defined.

(** C5 as stated fails on a self-loop: the one edge of [loop_graph] touches
    its node at both ends and yields two facts in one call, an outgoing and
    an incoming one. *)
Lemma self_loop_yields_two_facts :
  wf_graph loop_graph
  /\ "a" ∈ node_ids loop_graph
  /\ length (g_edges loop_graph) = 1%nat
  /\ (direction <$> relationships loop_graph "a") = ["outgoing"; "incoming"]
  /\ get_node_relationships loop_graph "a" = Ok (relationships loop_graph "a")
  /\ length (relationships loop_graph "a") = 2%nat.
Proof.
  split; [apply (bool_decide_unpack _); vm_compute; exact I|].
  split; [apply (bool_decide_unpack _); vm_compute; exact I|].
  split; [reflexivity|]. split; [reflexivity|]. split; [|reflexivity].
  vm_compute. reflexivity.
Qed.

(** ** The traversal loop stays within its budget *)

Section Budget.
Context (G : MultiDiGraph) (depth : Z).

Lemma unvisited_degree_le (l : list string) (V : gset string) (c : string) :
  (sum_list (map (degree G) (filter (fun n => n ∉ {[c]} ∪ V) l))
   <= sum_list (map (degree G) (filter (fun n => n ∉ V) l)))%nat.
Proof.
  induction l as [|n l IH]; [done|].
  rewrite !filter_cons. destruct (decide (n ∉ {[c]} ∪ V)) as [Hn|Hn].
  - rewrite decide_True by set_solver. simpl. lia.
  - case_decide; simpl; lia.
Qed.

(** Visiting a node does not raise what is pending, and visiting a new node
    of the graph lowers it by the degree of the node. *)
Lemma pending_visit_le (V : gset string) (c : string) :
  (pending G ({[c]} ∪ V) <= pending G V)%nat.
Proof. apply unvisited_degree_le. Qed.

Lemma pending_visit_lt (V : gset string) (c : string) :
  c ∈ node_ids G -> c ∉ V ->
  (pending G ({[c]} ∪ V) + degree G c <= pending G V)%nat.
Proof.
  unfold pending. induction (node_ids G) as [|n l IH]; intros Hc HV.
  - by apply elem_of_nil in Hc.
  - rewrite !filter_cons. destruct (decide (n = c)) as [->|Hne].
    + rewrite decide_False by set_solver. rewrite decide_True by done.
      simpl. pose proof (unvisited_degree_le l V c). lia.
    + apply elem_of_cons in Hc as [?|Hc]; [congruence|].
      specialize (IH Hc HV).
      destruct (decide (n ∉ V)) as [Hn|Hn].
      * rewrite decide_True by set_solver. simpl. lia.
      * rewrite decide_False by set_solver. lia.
Qed.

Lemma budget_eq (st : tstate) :
  budget G st = (length (to_visit st) + pending G (visited st))%nat.
Proof. done. Qed.

Lemma enqueue_neighbors_length (c : string) (d : Z) (V : gset string)
    (new : list (string * Z)) :
  enqueue_neighbors G c d V = Ok new ->
  c ∈ node_ids G /\ (length new <= degree G c)%nat.
Proof.
  unfold enqueue_neighbors, successors, predecessors.
  destruct (has_node G c) eqn:Hc; [|done]. simpl.
  intros [= <-]. split; [by apply has_node_true|].
  rewrite length_map. unfold degree. rewrite <- length_app.
  apply length_filter.
Qed.

(** One iteration lowers the budget. *)
Lemma traverse_step_budget (st st' : tstate) (c : string) (d : Z)
    (rest : list (string * Z)) :
  to_visit st = (c, d) :: rest ->
  traverse_step G depth st c d rest = Ok st' ->
  (budget G st' < budget G st)%nat.
Proof.
  intros Hq. rewrite !budget_eq, Hq. unfold traverse_step. simpl.
  destruct (bool_decide (c ∈ visited st) || (depth <? d)%Z) eqn:Hskip.
  - intros [= <-]. simpl. lia.
  - apply orb_false_iff in Hskip as [Hv _]. apply bool_decide_eq_false in Hv.
    destruct (get_node_relationships G c) as [rels|e]; [simpl|done].
    destruct (d <? depth)%Z.
    + destruct (enqueue_neighbors G c d ({[c]} ∪ visited st)) as [new|e] eqn:Hnew;
        [simpl|done].
      intros [= <-]. simpl. rewrite length_app.
      apply enqueue_neighbors_length in Hnew as [Hc Hlen].
      pose proof (pending_visit_lt (visited st) c Hc Hv). lia.
    + intros [= <-]. simpl. pose proof (pending_visit_le (visited st) c). lia.
Qed.

(** With at least its budget as fuel, the loop returns. *)
Lemma traverse_loop_returns (fuel : nat) (st : tstate) :
  (budget G st <= fuel)%nat -> is_Some (traverse_loop G depth fuel st).
Proof.
  revert st. induction fuel as [|fuel IH]; intros st Hb.
  - destruct st as [V F q]. destruct q as [|[c d] rest]; simpl; [done|].
    rewrite budget_eq in Hb. simpl in Hb. lia.
  - destruct st as [V F q]. destruct q as [|[c d] rest]; simpl; [done|].
    destruct (traverse_step G depth (TState V F ((c, d) :: rest)) c d rest)
      as [st'|e] eqn:Hstep; [|done].
    apply IH. apply traverse_step_budget in Hstep; [lia|done].
Qed.

(** More fuel does not change a result. *)
Lemma traverse_loop_more_fuel (fuel fuel' : nat) (st : tstate) (r : res tstate) :
  traverse_loop G depth fuel st = Some r -> (fuel <= fuel')%nat ->
  traverse_loop G depth fuel' st = Some r.
Proof.
  revert fuel' st. induction fuel as [|fuel IH]; intros fuel' st Hr Hle.
  - destruct st as [V F q]. destruct q as [|[c d] rest]; simpl in *; [|done].
    by destruct fuel'.
  - destruct fuel' as [|fuel']; [lia|].
    destruct st as [V F q]. destruct q as [|[c d] rest]; simpl in *; [done|].
    destruct (traverse_step G depth (TState V F ((c, d) :: rest)) c d rest)
      as [st'|e]; [|done].
    apply IH; [done|lia].
Qed.

End Budget.

Lemma traverse_from_node_returns (G : MultiDiGraph) (n : string) (depth : Z) :
  is_Some (traverse_from_node G n depth).
Proof.
  unfold traverse_from_node.
  destruct (traverse_loop_returns G depth (budget G (init_state n)) (init_state n))
    as [r Hr]; [done|].
  rewrite Hr. by destruct r.
Qed.

(** ** The trace of a traversal *)

Section Trace.
Context (G : MultiDiGraph) (depth : Z) (Hwf : wf_graph G).

Lemma succ_list_in_graph (c x : string) : x ∈ succ_list G c -> x ∈ node_ids G.
Proof using Hwf.
  unfold succ_list. rewrite uniq_elem_of.
  intros (e & -> & [_ He]%list_elem_of_filter)%list_elem_of_fmap.
  by apply wf_edge_endpoints.
Qed.

Lemma pred_list_in_graph (c x : string) : x ∈ pred_list G c -> x ∈ node_ids G.
Proof using Hwf.
  unfold pred_list. rewrite uniq_elem_of.
  intros (e & -> & [_ He]%list_elem_of_filter)%list_elem_of_fmap.
  by apply wf_edge_endpoints.
Qed.

Lemma new_items_in_graph (c : string) (d : Z) (V : gset string) :
  queue_in_graph G (new_items G depth c d V).
Proof using Hwf.
  unfold new_items. intros p. destruct (d <? depth)%Z; [|by intros ?%elem_of_nil].
  intros (nb & -> & [_ Hnb]%list_elem_of_filter)%list_elem_of_fmap. simpl.
  apply elem_of_app in Hnb as [?|?];
    [by eapply succ_list_in_graph | by eapply pred_list_in_graph].
Qed.

(** A popped node that was visited before, or lies beyond the depth limit,
    is dropped: nothing changes but the queue. *)
Lemma traverse_step_skip (st : tstate) (c : string) (d : Z) (rest : list (string * Z)) :
  c ∈ visited st \/ (depth < d)%Z ->
  traverse_step G depth st c d rest = Ok (TState (visited st) (facts st) rest).
Proof.
  intros Hskip. unfold traverse_step.
  assert (bool_decide (c ∈ visited st) || (depth <? d)%Z = true) as ->; [|done].
  apply orb_true_iff. destruct Hskip as [?|?];
    [left; by apply bool_decide_eq_true | right; lia].
Qed.

(** A popped node of the graph that is new and within the limit is
    expanded: it joins the visited set, all its relationships join the
    facts, and its unvisited neighbours join the queue when it lies
    strictly below the limit. *)
Lemma traverse_step_expand (st : tstate) (c : string) (d : Z) (rest : list (string * Z)) :
  c ∈ node_ids G -> c ∉ visited st -> (d <= depth)%Z ->
  traverse_step G depth st c d rest
  = Ok (TState ({[c]} ∪ visited st) (facts st ++ relationships G c)
               (rest ++ new_items G depth c d ({[c]} ∪ visited st))).
Proof using Hwf.
  intros Hc Hv Hd. unfold traverse_step.
  assert (bool_decide (c ∈ visited st) || (depth <? d)%Z = false) as ->.
  { apply orb_false_iff. split; [by apply bool_decide_eq_false | lia]. }
  rewrite get_node_relationships_ok by done. simpl.
  unfold new_items, enqueue_neighbors, successors, predecessors.
  rewrite (proj2 (has_node_true G c) Hc).
  destruct (d <? depth)%Z; simpl; [done|]. by rewrite app_nil_r.
Qed.

(** A run from a queue of graph nodes expands a duplicate-free sequence of
    nodes that were not visited before, and collects exactly their
    relationships, node by node. *)
Lemma traverse_loop_trace (fuel : nat) (st : tstate) (r : res tstate) :
  queue_in_graph G (to_visit st) ->
  traverse_loop G depth fuel st = Some r ->
  exists order,
    NoDup order
    /\ (forall n, n ∈ order -> (n ∉ visited st) /\ (n ∈ node_ids G))
    /\ r = Ok (TState (visited st ∪ list_to_set order)
                      (facts st ++ concat (map (relationships G) order)) []).
Proof using Hwf.
  revert st. induction fuel as [|fuel IH]; intros [V F q] Hq.
  - destruct q as [|[c d] rest]; simpl; [|done].
    intros [= <-]. exists []. split; [constructor|]. split.
    + by intros n ?%elem_of_nil.
    + simpl. rewrite app_nil_r. do 2 f_equal. set_solver.
  - destruct q as [|[c d] rest]; simpl.
    { intros [= <-]. exists []. split; [constructor|]. split.
      + by intros n ?%elem_of_nil.
      + simpl. rewrite app_nil_r. do 2 f_equal. set_solver. }
    assert (Hc : c ∈ node_ids G) by (apply (Hq (c, d)); left).
    assert (Hrest : queue_in_graph G rest) by (intros p Hp; apply Hq; by right).
    destruct (decide (c ∈ V \/ (depth < d)%Z)) as [Hskip|Hnew].
    + rewrite traverse_step_skip by done. intros Hr.
      apply IH in Hr; [|done]. exact Hr.
    + assert (Hv : c ∉ V) by tauto. assert (Hd : (d <= depth)%Z) by lia.
      rewrite traverse_step_expand by done. simpl. intros Hr.
      apply IH in Hr as (order & Hnd & Hfresh & ->).
      * exists (c :: order). split; [|split].
        -- constructor; [|done]. intros Hin. apply Hfresh in Hin as [Hin _].
           simpl in Hin. set_solver.
        -- intros n [->|Hn]%elem_of_cons; [done|].
           apply Hfresh in Hn as [Hn ?]. simpl in Hn. set_solver.
        -- simpl. rewrite <- !app_assoc. do 2 f_equal. set_solver.
      * simpl. intros p [Hp|Hp]%elem_of_app; [by apply Hrest|].
        by eapply new_items_in_graph.
Qed.

(** Within a non-negative limit, no queued item lies beyond the limit. *)
Lemma traverse_step_bounded (st st' : tstate) (c : string) (d : Z)
    (rest : list (string * Z)) :
  queue_bounded depth ((c, d) :: rest) ->
  traverse_step G depth st c d rest = Ok st' ->
  queue_bounded depth (to_visit st').
Proof.
  intros Hb. assert (Hrest : queue_bounded depth rest) by (intros p Hp; apply Hb; by right).
  unfold traverse_step.
  destruct (bool_decide (c ∈ visited st) || (depth <? d)%Z); [by intros [= <-]|].
  destruct (get_node_relationships G c) as [rels|e]; [simpl|done].
  destruct (d <? depth)%Z eqn:Hd; [|by intros [= <-]].
  unfold enqueue_neighbors.
  destruct (successors G c) as [ss|e]; [simpl|done].
  destruct (predecessors G c) as [ps|e]; [simpl|done].
  intros [= <-]. simpl. intros p [Hp|Hp]%elem_of_app; [by apply Hrest|].
  apply list_elem_of_fmap in Hp as (nb & -> & _). simpl. lia.
Qed.

End Trace.

(** ** Termination, revisits and depth *)

(** The run from the initial state, on a node of a graph. *)
Lemma traverse_run_trace (G : MultiDiGraph) (start : string) (depth : Z) :
  wf_graph G -> start ∈ node_ids G ->
  exists order,
    NoDup order
    /\ (forall n, n ∈ order -> n ∈ node_ids G)
    /\ traverse_loop G depth (budget G (init_state start)) (init_state start)
       = Some (Ok (TState (list_to_set order)
                          (concat (map (relationships G) order)) [])).
Proof.
  intros Hwf Hstart.
  destruct (traverse_loop_returns G depth (budget G (init_state start)) (init_state start))
    as [r Hr]; [done|].
  pose proof Hr as Htrace.
  apply (traverse_loop_trace G depth Hwf) in Htrace as (order & Hnd & Hfresh & ->).
  - exists order. split; [done|]. split; [intros n Hn; by apply Hfresh|].
    rewrite Hr. simpl. do 3 f_equal. apply (left_id_L ∅ (∪)).
  - simpl. intros p ->%list_elem_of_singleton. done.
Qed.

Lemma traverse_from_node_trace (G : MultiDiGraph) (start : string) (depth : Z) :
  wf_graph G -> start ∈ node_ids G ->
  exists order,
    NoDup order
    /\ (forall n, n ∈ order -> n ∈ node_ids G)
    /\ traverse_from_node G start depth
       = Some (Ok (Traversal start (list_to_set order)
                     (unique_facts (concat (map (relationships G) order))))).
Proof.
  intros Hwf Hstart.
  destruct (traverse_run_trace G start depth Hwf Hstart) as (order & Hnd & Hin & Hrun).
  exists order. split; [done|]. split; [done|].
  unfold traverse_from_node. by rewrite Hrun.
Qed.

(** C3: the traversal returns on every graph, start and depth; on a graph
    and a start node of it, the nodes it expands form a duplicate-free
    sequence, the visited set is the set of these nodes, and the facts
    collected before deduplication are the relationships of these nodes,
    each node contributing them once. *)
Theorem traverse_terminates_without_revisit (G : MultiDiGraph) (start : string)
    (depth : Z) :
  is_Some (traverse_from_node G start depth)
  /\ (wf_graph G -> start ∈ node_ids G ->
      exists order,
        NoDup order
        /\ (forall n, n ∈ order -> get_node_relationships G n = Ok (relationships G n))
        /\ traverse_loop G depth (budget G (init_state start)) (init_state start)
           = Some (Ok (TState (list_to_set order)
                              (concat (map (relationships G) order)) []))
        /\ traverse_from_node G start depth
           = Some (Ok (Traversal start (list_to_set order)
                         (unique_facts (concat (map (relationships G) order)))))).
Proof.
  split; [apply traverse_from_node_returns|].
  intros Hwf Hstart.
  destruct (traverse_run_trace G start depth Hwf Hstart) as (order & Hnd & Hin & Hrun).
  exists order. split; [done|]. split; [|split].
  - intros n Hn. apply get_node_relationships_ok; [done|]. by apply Hin.
  - exact Hrun.
  - unfold traverse_from_node. by rewrite Hrun.
Qed.

(** The statement of C3 on the cyclic [cycle_graph], from [a] with depth 5. *)
Lemma traverse_terminates_without_revisit_witness :
  is_Some (traverse_from_node cycle_graph "a" 5)
  /\ exists order,
        NoDup order
        /\ (forall n, n ∈ order ->
              get_node_relationships cycle_graph n = Ok (relationships cycle_graph n))
        /\ traverse_loop cycle_graph 5 (budget cycle_graph (init_state "a")) (init_state "a")
           = Some (Ok (TState (list_to_set order)
                              (concat (map (relationships cycle_graph) order)) []))
        /\ traverse_from_node cycle_graph "a" 5
           = Some (Ok (Traversal "a" (list_to_set order)
                         (unique_facts (concat (map (relationships cycle_graph) order))))).
Proof.
  destruct (traverse_terminates_without_revisit cycle_graph "a" 5) as [Hret Hrun].
  split; [exact Hret|]. apply Hrun.
  - apply (bool_decide_unpack _). vm_compute. exact I.
  - apply (bool_decide_unpack _). vm_compute. exact I.
Defined.

Lemma reachable_bounded (G : MultiDiGraph) (depth : Z) (start : string) (st : tstate) :
  (0 <= depth)%Z -> reachable G depth start st -> queue_bounded depth (to_visit st).
Proof.
  intros Hd. induction 1 as [|st st' c d rest _ IH Hq Hstep].
  - simpl. intros p ->%list_elem_of_singleton. done.
  - eapply traverse_step_bounded; [|exact Hstep]. by rewrite <- Hq.
Qed.

Lemma traverse_loop_cons (G : MultiDiGraph) (depth : Z) (fuel : nat) (st : tstate)
    (c : string) (d : Z) (rest : list (string * Z)) :
  to_visit st = (c, d) :: rest ->
  traverse_loop G depth (S fuel) st
  = match traverse_step G depth st c d rest with
    | Raise e => Some (Raise e)
    | Ok st' => traverse_loop G depth fuel st'
    end.
Proof. destruct st as [V F q]. simpl. by intros ->. Qed.

Lemma traverse_loop_nil (G : MultiDiGraph) (depth : Z) (fuel : nat) (st : tstate) :
  to_visit st = [] -> traverse_loop G depth fuel st = Some (Ok st).
Proof. destruct st as [V F q]. simpl. intros ->. by destruct fuel. Qed.

Lemma traverse_depth_zero (G : MultiDiGraph) (start : string) :
  wf_graph G -> start ∈ node_ids G ->
  traverse_from_node G start 0
  = Some (Ok (Traversal start {[start]} (unique_facts (relationships G start)))).
Proof.
  intros Hwf Hstart. unfold traverse_from_node.
  change (budget G (init_state start)) with (S (pending G ∅)).
  rewrite (traverse_loop_cons G 0 _ (init_state start) start 0 []) by done.
  rewrite traverse_step_expand by (done || set_solver || lia).
  rewrite traverse_loop_nil by done.
  simpl. by rewrite (right_id_L ∅ (∪)).
Qed.

(** C4: from a node of the graph, a traversal with depth 0 visits the start
    node alone and returns exactly its relationships (the edges leaving it,
    then the edges entering it), of which it keeps the first fact of every
    triple of source id, target id and relation label. In general, a popped
    node that is new and not beyond the limit adds all its relationships to
    the facts whether or not it lies below the limit, and adds its
    unvisited successors and predecessors to the queue, one level deeper,
    only when it lies strictly below the limit; a popped node that was
    visited before changes nothing; and with a non-negative limit no queued
    node ever lies beyond the limit. *)
Theorem traverse_depth_zero_and_expansion (G : MultiDiGraph) (start : string)
    (depth : Z) (st : tstate) (c : string) (d : Z) (rest : list (string * Z)) :
  wf_graph G -> start ∈ node_ids G -> c ∈ node_ids G ->
  traverse_from_node G start 0
  = Some (Ok (Traversal start {[start]} (keep_first (relationships G start))))
  /\ get_node_relationships G start = Ok (relationships G start)
  /\ out_edges_of G start ≡ₚ filter (fun e => e_src e = start) (g_edges G)
  /\ in_edges_of G start ≡ₚ filter (fun e => e_tgt e = start) (g_edges G)
  /\ (c ∉ visited st -> (d <= depth)%Z ->
      traverse_step G depth st c d rest
      = Ok (TState ({[c]} ∪ visited st)
                   (facts st ++ relationships G c)
                   (rest ++
                    if (d <? depth)%Z
                    then map (fun nb => (nb, (d + 1)%Z))
                             (filter (fun nb => nb ∉ {[c]} ∪ visited st)
                                     (succ_list G c ++ pred_list G c))
                    else [])))
  /\ (c ∈ visited st ->
      traverse_step G depth st c d rest = Ok (TState (visited st) (facts st) rest))
  /\ ((0 <= depth)%Z ->
      forall st', reachable G depth start st' ->
                  forall p, p ∈ to_visit st' -> (p.2 <= depth)%Z).
Proof.
  intros Hwf Hstart Hc.
  split; [by rewrite <- unique_facts_keep_first; apply traverse_depth_zero|].
  split; [by apply get_node_relationships_ok|].
  split; [apply out_edges_of_Permutation|].
  split; [apply in_edges_of_Permutation|].
  split; [|split].
  - intros Hv Hd. by rewrite traverse_step_expand.
  - intros Hv. apply traverse_step_skip. by left.
  - intros Hd st' Hst'. by apply (reachable_bounded G depth start).
Qed.

(** The statement of C4 on [cycle_graph]: start [a], and the step that pops
    [b] at depth 1 under the limit 1. *)
Lemma traverse_depth_zero_and_expansion_witness :
  traverse_from_node cycle_graph "a" 0
  = Some (Ok (Traversal "a" {["a"]} (keep_first (relationships cycle_graph "a"))))
  /\ get_node_relationships cycle_graph "a" = Ok (relationships cycle_graph "a")
  /\ out_edges_of cycle_graph "a" ≡ₚ filter (fun e => e_src e = "a") (g_edges cycle_graph)
  /\ in_edges_of cycle_graph "a" ≡ₚ filter (fun e => e_tgt e = "a") (g_edges cycle_graph)
  /\ ("b" ∉ visited (TState {["a"]} [] [("b", 1%Z)]) -> (1 <= 1)%Z ->
      traverse_step cycle_graph 1 (TState {["a"]} [] [("b", 1%Z)]) "b" 1 []
      = Ok (TState ({["b"]} ∪ visited (TState {["a"]} [] [("b", 1%Z)]))
                   (facts (TState {["a"]} [] [("b", 1%Z)]) ++ relationships cycle_graph "b")
                   ([] ++
                    if (1 <? 1)%Z
                    then map (fun nb => (nb, (1 + 1)%Z))
                             (filter (fun nb => nb ∉ {["b"]} ∪ visited (TState {["a"]} [] [("b", 1%Z)]))
                                     (succ_list cycle_graph "b" ++ pred_list cycle_graph "b"))
                    else [])))
  /\ ("b" ∈ visited (TState {["a"]} [] [("b", 1%Z)]) ->
      traverse_step cycle_graph 1 (TState {["a"]} [] [("b", 1%Z)]) "b" 1 []
      = Ok (TState (visited (TState {["a"]} [] [("b", 1%Z)]))
                   (facts (TState {["a"]} [] [("b", 1%Z)])) []))
  /\ ((0 <= 1)%Z ->
      forall st', reachable cycle_graph 1 "a" st' ->
                  forall p, p ∈ to_visit st' -> (p.2 <= 1)%Z).
Proof.
  apply (traverse_depth_zero_and_expansion cycle_graph "a" 1
           (TState {["a"]} [] [("b", 1%Z)]) "b" 1 []).
  - apply (bool_decide_unpack _). vm_compute. exact I.
  - apply (bool_decide_unpack _). vm_compute. exact I.
  - apply (bool_decide_unpack _). vm_compute. exact I.
Defined.

(** ** Parallel edges *)

Lemma first_wins_app (G : MultiDiGraph) (l1 l2 : list fact) :
  first_wins G l1 -> first_wins G l2 -> first_wins G (l1 ++ l2).
Proof.
  intros H1 H2 k f. rewrite first_with_key_app.
  destruct (first_with_key k l1) as [g|] eqn:Hg.
  - intros [= <-]. by apply H1.
  - apply H2.
Qed.

Lemma elem_of_concat {A} (x : A) (ls : list (list A)) :
  x ∈ concat ls <-> exists l, x ∈ l /\ l ∈ ls.
Proof.
  induction ls as [|l ls IH]; simpl.
  - split; [by intros ?%elem_of_nil | by intros (l & _ & ?%elem_of_nil)].
  - rewrite elem_of_app, IH. split.
    + intros [Hx|(l' & Hx & Hl')]; [exists l | exists l'];
        (split; [done|]); [by left | by right].
    + intros (l' & Hx & [->|Hl']%elem_of_cons); [by left|].
      right. by exists l'.
Qed.

Lemma first_wins_concat (G : MultiDiGraph) (ls : list (list fact)) :
  Forall (first_wins G) ls -> first_wins G (concat ls).
Proof.
  induction 1 as [|l ls Hl _ IH]; simpl.
  - intros k f. done.
  - by apply first_wins_app.
Qed.

Lemma head_filter_map {A B} (g : A -> B) (P : B -> Prop)
    `{!forall y, Decision (P y)} (l : list A) :
  head (filter P (map g l)) = g <$> head (filter (fun x => P (g x)) l).
Proof.
  induction l as [|x l IH]; [done|]. simpl.
  rewrite !filter_cons. by case_decide.
Qed.

Lemma first_wins_out (G : MultiDiGraph) (n : string) :
  first_wins G (map (out_fact G n) (out_edges_of G n)).
Proof.
  intros [[s t] r] f. unfold first_with_key. rewrite head_filter_map.
  rewrite out_edges_of_grouped.
  rewrite (filter_grouped e_tgt _ t);
    [|apply uniq_NoDup|apply succ_list_cover|by intros e [= _ <- _]].
  rewrite list_filter_filter.
  destruct (head _) as [e|] eqn:He; [|done]. simpl. intros [= <-].
  pose proof (head_Some_elem_of _ _ He) as [[Hk Hsrc] _]%list_elem_of_filter.
  injection Hk as -> Ht Hr. exists e. split; [|done].
  unfold first_edge. rewrite <- He. f_equal. apply list_filter_iff.
  intros x. unfold edge_key, key_of. simpl. split.
  - intros [= Hs' Ht' Hr']. split; [congruence | done].
  - intros [[= Ht' Hr'] Hs']. congruence.
Qed.

Lemma first_wins_in (G : MultiDiGraph) (n : string) :
  first_wins G (map (in_fact G n) (in_edges_of G n)).
Proof.
  intros [[s t] r] f. unfold first_with_key. rewrite head_filter_map.
  rewrite in_edges_of_grouped.
  rewrite (filter_grouped e_src _ s);
    [|apply uniq_NoDup|apply pred_list_cover|by intros e [= <- _ _]].
  rewrite list_filter_filter.
  destruct (head _) as [e|] eqn:He; [|done]. simpl. intros [= <-].
  pose proof (head_Some_elem_of _ _ He) as [[Hk Htgt] _]%list_elem_of_filter.
  injection Hk as Hs -> Hr. exists e. split; [|done].
  unfold first_edge. rewrite <- He. f_equal. apply list_filter_iff.
  intros x. unfold edge_key, key_of. simpl. split.
  - intros [= Hs' Ht' Hr']. split; [congruence | done].
  - intros [[= Ht' Hr'] Hs']. congruence.
Qed.

Lemma first_wins_relationships (G : MultiDiGraph) (n : string) :
  first_wins G (relationships G n).
Proof. apply first_wins_app; [apply first_wins_out | apply first_wins_in]. Qed.

Lemma first_wins_unique_facts (G : MultiDiGraph) (order : list string) :
  first_wins G (unique_facts (concat (map (relationships G) order))).
Proof.
  intros k f. rewrite unique_facts_dedup_from, dedup_from_first by set_solver.
  apply first_wins_concat, Forall_forall.
  intros l (n & -> & _)%list_elem_of_fmap. apply first_wins_relationships.
Qed.

(** The facts of an edge are among the relationships of both its ends. *)
Lemma out_fact_in_relationships (G : MultiDiGraph) (e : edge) :
  e ∈ g_edges G ->
  out_fact G (e_src e) e ∈ relationships G (e_src e)
  /\ key_of (out_fact G (e_src e) e) = edge_key e.
Proof.
  intros He. split; [|done]. apply elem_of_app. left.
  apply list_elem_of_fmap. exists e. split; [done|]. by apply out_edges_of_elem.
Qed.

Lemma in_fact_in_relationships (G : MultiDiGraph) (e : edge) :
  e ∈ g_edges G ->
  in_fact G (e_tgt e) e ∈ relationships G (e_tgt e)
  /\ key_of (in_fact G (e_tgt e) e) = edge_key e.
Proof.
  intros He. split; [|done]. apply elem_of_app. right.
  apply list_elem_of_fmap. exists e. split; [done|]. by apply in_edges_of_elem.
Qed.

Lemma first_edge_elem_of (G : MultiDiGraph) (k : fact_key) (e : edge) :
  first_edge G k = Some e -> e ∈ g_edges G /\ edge_key e = k.
Proof.
  unfold first_edge. intros H%head_Some_elem_of.
  apply list_elem_of_filter in H. tauto.
Qed.

(** C9: when two edges of the graph share source, target and relation but
    differ in their attributes, and [e1] is the first of the edges with that
    key, a traversal from a node of the graph returns at most one fact for
    the key; that fact carries the attributes of [e1], never those of the
    other edge; and it is returned whenever an end of the edge is visited. *)
Theorem traverse_first_parallel_edge_wins (G : MultiDiGraph) (start : string)
    (depth : Z) (t : traversal) (e1 e2 : edge) :
  wf_graph G -> start ∈ node_ids G ->
  traverse_from_node G start depth = Some (Ok t) ->
  first_edge G (edge_key e1) = Some e1 ->
  e2 ∈ g_edges G -> edge_key e2 = edge_key e1 ->
  edge_attributes e2 ≠ edge_attributes e1 ->
  (forall f g, f ∈ t_facts t -> g ∈ t_facts t ->
               key_of f = edge_key e1 -> key_of g = edge_key e1 -> f = g)
  /\ (forall f, f ∈ t_facts t -> key_of f = edge_key e1 ->
                attributes f = edge_attributes e1
                /\ attributes f ≠ edge_attributes e2)
  /\ (e_src e1 ∈ visited_nodes t \/ e_tgt e1 ∈ visited_nodes t ->
      exists f, f ∈ t_facts t /\ key_of f = edge_key e1).
Proof.
  intros Hwf Hstart Ht Hfirst He2 Hkey Hattrs.
  destruct (traverse_from_node_trace G start depth Hwf Hstart)
    as (order & Hnd & Hin & Hrun).
  rewrite Hrun in Ht. injection Ht as <-. simpl.
  set (raw := concat (map (relationships G) order)).
  assert (Hdistinct : NoDup (map key_of (unique_facts raw))).
  { rewrite unique_facts_dedup_from. apply dedup_from_NoDup. }
  assert (Hone : forall f, f ∈ unique_facts raw -> key_of f = edge_key e1 ->
                 first_with_key (edge_key e1) (unique_facts raw) = Some f).
  { intros f Hf Hk. by apply first_with_key_unique. }
  split; [|split].
  - intros f g Hf Hg Hkf Hkg.
    pose proof (Hone f Hf Hkf) as H1. pose proof (Hone g Hg Hkg) as H2. congruence.
  - intros f Hf Hk. apply Hone in Hf; [|done].
    apply first_wins_unique_facts in Hf as (e & He & Hattr).
    assert (e = e1) as -> by congruence.
    split; [done|]. congruence.
  - intros Hvisited.
    destruct (first_edge_elem_of G _ _ Hfirst) as [He1 _].
    assert (Hraw : exists n f, n ∈ order /\ f ∈ relationships G n
                               /\ key_of f = edge_key e1).
    { destruct Hvisited as [Hv|Hv]; apply elem_of_list_to_set in Hv.
      - exists (e_src e1), (out_fact G (e_src e1) e1).
        split; [done|]. by apply out_fact_in_relationships.
      - exists (e_tgt e1), (in_fact G (e_tgt e1) e1).
        split; [done|]. by apply in_fact_in_relationships. }
    destruct Hraw as (n & f & Hn & Hf & Hk).
    assert (Hfraw : f ∈ raw).
    { apply elem_of_concat. exists (relationships G n). split; [done|].
      apply list_elem_of_fmap. by exists n. }
    destruct (first_with_key (edge_key e1) raw) as [g|] eqn:Hg.
    + exists g. rewrite <- (dedup_from_first ∅), <- unique_facts_dedup_from in Hg
        by set_solver.
      by apply first_with_key_Some in Hg.
    + exfalso. by eapply first_with_key_None.
Qed.

(** The statement of C9 on [parallel_graph], traversed from [b] with depth 1. *)
Lemma traverse_first_parallel_edge_wins_witness :
  (forall f g, f ∈ t_facts parallel_traversal -> g ∈ t_facts parallel_traversal ->
               key_of f = edge_key parallel_first -> key_of g = edge_key parallel_first ->
               f = g)
  /\ (forall f, f ∈ t_facts parallel_traversal -> key_of f = edge_key parallel_first ->
                attributes f = edge_attributes parallel_first
                /\ attributes f ≠ edge_attributes parallel_second)
  /\ (e_src parallel_first ∈ visited_nodes parallel_traversal
      \/ e_tgt parallel_first ∈ visited_nodes parallel_traversal ->
      exists f, f ∈ t_facts parallel_traversal /\ key_of f = edge_key parallel_first).
Proof.
  apply (traverse_first_parallel_edge_wins parallel_graph "b" 1
           parallel_traversal parallel_first parallel_second).
  - apply (bool_decide_unpack _). vm_compute. exact I.
  - apply (bool_decide_unpack _). vm_compute. exact I.
  - vm_compute. reflexivity.
  - vm_compute. reflexivity.
  - apply (list_elem_of_lookup_2 _ 1%nat). vm_compute. reflexivity.
  - vm_compute. reflexivity.
  - apply (bool_decide_unpack _). vm_compute. exact I.
Defined.

(** ** Construction *)

Lemma fmap_fst_map {V} (f : string * V -> string * V) (l : list (string * V)) :
  (forall p, (f p).1 = p.1) -> (map f l).*1 = l.*1.
Proof.
  intros Hf. induction l as [|p l IH]; [done|].
  simpl. f_equal; [apply Hf | exact IH].
Qed.

Lemma node_ids_add_node (G : MultiDiGraph) (n : string) (attr : gmap string string) :
  node_ids (add_node G n attr)
  = if has_node G n then node_ids G else node_ids G ++ [n].
Proof.
  unfold add_node, node_ids. destruct (has_node G n); simpl.
  - apply fmap_fst_map. intros p. by case_decide.
  - by rewrite fmap_app.
Qed.

Lemma node_ids_ensure_node (G : MultiDiGraph) (n : string) :
  node_ids (ensure_node G n)
  = if has_node G n then node_ids G else node_ids G ++ [n].
Proof.
  unfold ensure_node, node_ids. destruct (has_node G n); simpl; [done|].
  by rewrite fmap_app.
Qed.

Lemma ensure_node_elem (G : MultiDiGraph) (n m : string) :
  m ∈ node_ids (ensure_node G n) <-> m ∈ node_ids G \/ m = n.
Proof.
  rewrite node_ids_ensure_node. destruct (has_node G n) eqn:Hn.
  - apply has_node_true in Hn. naive_solver.
  - rewrite elem_of_app, list_elem_of_singleton. tauto.
Qed.

Lemma add_node_elem (G : MultiDiGraph) (n m : string) (attr : gmap string string) :
  m ∈ node_ids (add_node G n attr) <-> m ∈ node_ids G \/ m = n.
Proof.
  rewrite node_ids_add_node. destruct (has_node G n) eqn:Hn.
  - apply has_node_true in Hn. naive_solver.
  - rewrite elem_of_app, list_elem_of_singleton. tauto.
Qed.

Lemma NoDup_snoc_fresh (l : list string) (n : string) :
  NoDup l -> n ∉ l -> NoDup (l ++ [n]).
Proof.
  intros Hl Hn. apply NoDup_app. split; [done|]. split.
  - intros x Hx ->%list_elem_of_singleton. done.
  - apply NoDup_singleton.
Qed.

Lemma has_node_false (G : MultiDiGraph) (n : string) :
  has_node G n = false <-> n ∉ node_ids G.
Proof. unfold has_node. apply bool_decide_eq_false. Qed.

Lemma wf_add_node (G : MultiDiGraph) (n : string) (attr : gmap string string) :
  wf_graph G -> wf_graph (add_node G n attr).
Proof.
  intros [Hnd He]. split.
  - rewrite node_ids_add_node. destruct (has_node G n) eqn:Hn; [done|].
    apply NoDup_snoc_fresh; [done | by apply has_node_false].
  - assert (Hedges : g_edges (add_node G n attr) = g_edges G).
    { unfold add_node. by destruct (has_node G n). }
    rewrite Hedges. eapply Forall_impl; [exact He|].
    intros e [? ?]. rewrite !add_node_elem. tauto.
Qed.

Lemma wf_ensure_node (G : MultiDiGraph) (n : string) :
  wf_graph G -> wf_graph (ensure_node G n).
Proof.
  intros [Hnd He]. split.
  - rewrite node_ids_ensure_node. destruct (has_node G n) eqn:Hn; [done|].
    apply NoDup_snoc_fresh; [done | by apply has_node_false].
  - assert (Hedges : g_edges (ensure_node G n) = g_edges G).
    { unfold ensure_node. by destruct (has_node G n). }
    rewrite Hedges. eapply Forall_impl; [exact He|].
    intros e [? ?]. rewrite !ensure_node_elem. tauto.
Qed.

Lemma assoc_snoc {V} (l : list (string * V)) (n m : string) (v : V) :
  assoc m (l ++ [(n, v)])
  = match assoc m l with
    | Some w => Some w
    | None => if decide (n = m) then Some v else None
    end.
Proof.
  induction l as [|[k w] l IH]; simpl; [done|].
  destruct (decide (k = m)); [done | exact IH].
Qed.

Lemma assoc_not_elem {V} (l : list (string * V)) (m : string) :
  m ∉ l.*1 -> assoc m l = None.
Proof.
  induction l as [|[k w] l IH]; simpl; intros Hm; [done|].
  rewrite decide_False by (intros ->; apply Hm; by left).
  apply IH. intros ?. apply Hm. by right.
Qed.

(** Adding a missing endpoint leaves the attributes of every node as they
    were: the new node has none. *)
Lemma node_data_ensure_node (G : MultiDiGraph) (n m : string) :
  node_data (ensure_node G n) m = node_data G m.
Proof.
  unfold ensure_node, node_data. destruct (has_node G n) eqn:Hn; [done|]. simpl.
  rewrite assoc_snoc.
  destruct (assoc m (g_nodes G)); [done|]. by case_decide.
Qed.

Lemma add_edge_nodes (G : MultiDiGraph) (u v : string) (key : option value)
    (attr : gmap string value) :
  g_nodes (add_edge G u v key attr) = g_nodes (ensure_node (ensure_node G u) v).
Proof. unfold add_edge. by destruct (key_in _ _). Qed.

Lemma add_edge_elem (G : MultiDiGraph) (u v m : string) (key : option value)
    (attr : gmap string value) :
  m ∈ node_ids (add_edge G u v key attr) <-> m ∈ node_ids G \/ m = u \/ m = v.
Proof.
  unfold node_ids at 1. rewrite add_edge_nodes.
  change ((g_nodes (ensure_node (ensure_node G u) v)).*1)
    with (node_ids (ensure_node (ensure_node G u) v)).
  rewrite !ensure_node_elem. tauto.
Qed.

Lemma node_data_add_edge (G : MultiDiGraph) (u v m : string) (key : option value)
    (attr : gmap string value) :
  node_data (add_edge G u v key attr) m = node_data G m.
Proof.
  unfold node_data at 1. rewrite add_edge_nodes.
  change (default ∅ (assoc m (g_nodes (ensure_node (ensure_node G u) v))))
    with (node_data (ensure_node (ensure_node G u) v) m).
  by rewrite !node_data_ensure_node.
Qed.

Lemma wf_add_edge (G : MultiDiGraph) (u v : string) (key : option value)
    (attr : gmap string value) :
  wf_graph G -> wf_graph (add_edge G u v key attr).
Proof.
  intros Hwf.
  pose proof (wf_ensure_node _ v (wf_ensure_node _ u Hwf)) as [Hnd He].
  assert (Hu : u ∈ node_ids (ensure_node (ensure_node G u) v)).
  { rewrite !ensure_node_elem. tauto. }
  assert (Hv : v ∈ node_ids (ensure_node (ensure_node G u) v)).
  { rewrite !ensure_node_elem. tauto. }
  split.
  - unfold node_ids. by rewrite add_edge_nodes.
  - unfold node_ids. rewrite add_edge_nodes.
    unfold add_edge. destruct (key_in _ _); simpl.
    + apply Forall_fmap. eapply Forall_impl; [exact He|].
      intros e [? ?]. simpl. by case_decide.
    + apply Forall_app. split; [done|]. by apply Forall_singleton.
Qed.

(** A loop of fallible rounds succeeds exactly when every round does, if
    that depends on the element alone. *)
Lemma foldM_ok_iff {A S} (f : S -> A -> res S) (ok : A -> Prop) (s : S) (l : list A) :
  (forall s x, is_ok (f s x) <-> ok x) ->
  is_ok (foldM f s l) <-> Forall ok l.
Proof.
  intros Hf. revert s. induction l as [|x l IH]; intros s; simpl.
  - split; [by constructor | intros _; by exists s].
  - rewrite Forall_cons, <- (Hf s x). unfold mbind, res_bind.
    destruct (f s x) as [s'|e].
    + rewrite IH. split; [intros ?; split; [by exists s' | done] | tauto].
    + split; [by intros [? ?] | by intros [[? ?] _]].
Qed.

Lemma add_node_seed_ok_iff (G : MultiDiGraph) (seed : gmap string string) :
  is_ok (add_node_seed G seed) <-> node_seed_ok seed.
Proof.
  unfold add_node_seed, node_seed_ok, is_ok.
  destruct (seed !! "id") as [n|].
  - destruct (seed !! "self"), (seed !! "node_for_adding"); simpl;
      (split; [intros [a Ha]; try discriminate | intros (_ & ? & ?); try discriminate]);
      eauto.
  - split; [by intros [a Ha] | by intros [[? ?] _]].
Qed.

Lemma add_edge_seed_ok_iff (G : MultiDiGraph) (r : rel_seed) :
  is_ok (add_edge_seed G r) <-> rel_seed_ok r.
Proof.
  destruct r as [[[s t] rel] attrs]. unfold add_edge_seed, rel_seed_ok, is_ok. simpl.
  destruct (attrs !! "relation"), (attrs !! "self"), (attrs !! "u_for_edge"),
    (attrs !! "v_for_edge"); simpl;
    (split; [intros [a Ha]; try discriminate | intros (? & ? & ? & ?); try discriminate]);
    eauto.
Qed.

Lemma foldM_app {A S} (f : S -> A -> res S) (s : S) (l1 l2 : list A) :
  foldM f s (l1 ++ l2) = (s' ← foldM f s l1; foldM f s' l2).
Proof.
  revert s. induction l1 as [|x l1 IH]; intros s; simpl; [done|].
  unfold mbind, res_bind. destruct (f s x); [apply IH | done].
Qed.

Lemma create_knowledge_graph_fold (P C : list (gmap string string)) (R : list rel_seed) :
  create_knowledge_graph P C R
  = (G ← foldM add_node_seed empty_graph (P ++ C); foldM add_edge_seed G R).
Proof.
  unfold create_knowledge_graph. rewrite foldM_app. unfold mbind, res_bind.
  by destruct (foldM add_node_seed empty_graph P).
Qed.

Lemma seed_ids_cons (seed : gmap string string) (l : list (gmap string string)) :
  seed_ids (seed :: l)
  = match seed !! "id" with
    | Some n => n :: seed_ids l
    | None => seed_ids l
    end.
Proof. done. Qed.

Lemma node_phase (l : list (gmap string string)) (G G' : MultiDiGraph) :
  foldM add_node_seed G l = Ok G' ->
  (wf_graph G -> wf_graph G')
  /\ (forall n, n ∈ node_ids G' <-> n ∈ node_ids G \/ n ∈ seed_ids l).
Proof.
  revert G. induction l as [|seed l IH]; intros G; cbn [foldM].
  - intros [= <-]. split; [done|]. intros n. unfold seed_ids. simpl.
    rewrite elem_of_nil. tauto.
  - unfold mbind, res_bind. destruct (add_node_seed G seed) as [G1|e] eqn:H1; [|done].
    intros [Hwf Hids]%IH. unfold add_node_seed in H1.
    destruct (seed !! "id") as [m|] eqn:Hid; [|done].
    destruct (_ || _); [done|]. injection H1 as <-.
    split.
    + intros ?. by apply Hwf, wf_add_node.
    + intros n. rewrite Hids, add_node_elem, seed_ids_cons, Hid.
      rewrite elem_of_cons. tauto.
Qed.

Lemma edge_phase (l : list rel_seed) (G G' : MultiDiGraph) :
  foldM add_edge_seed G l = Ok G' ->
  (wf_graph G -> wf_graph G')
  /\ (forall n, n ∈ node_ids G' <->
        n ∈ node_ids G \/ exists r, r ∈ l /\ (n = seed_source r \/ n = seed_target r))
  /\ (forall n, node_data G' n = node_data G n).
Proof.
  revert G. induction l as [|r l IH]; intros G; simpl.
  - intros [= <-]. split; [done|]. split; [|done].
    intros n. split; [tauto|]. intros [?|(r & ?%elem_of_nil & _)]; done.
  - unfold mbind, res_bind. destruct (add_edge_seed G r) as [G1|e] eqn:H1; [|done].
    intros (Hwf & Hids & Hdata)%IH.
    destruct r as [[[s t] rel] attrs]. unfold add_edge_seed in H1.
    destruct (bool_decide _); [done|]. destruct (_ || _); [done|].
    injection H1 as <-. split; [|split].
    + intros ?. by apply Hwf, wf_add_edge.
    + intros n. rewrite Hids, add_edge_elem. split.
      * intros [ [ ? | [ -> | -> ] ] | (r & Hr & Hn) ].
        -- by left.
        -- right. exists (s, t, rel, attrs). split; [by left | by left].
        -- right. exists (s, t, rel, attrs). split; [by left | by right].
        -- right. exists r. split; [by right | done].
      * intros [ ? | (r & [ -> | Hr ]%elem_of_cons & Hn) ].
        -- by left; left.
        -- left. right. exact Hn.
        -- right. by exists r.
    + intros n. by rewrite Hdata, node_data_add_edge.
Qed.

(** C1, as the code has it: construction does not reject a dangling
    endpoint. It succeeds exactly on the seeds whose calls bind their
    arguments; the graph it returns is well formed, its nodes are the node
    seeds together with every endpoint of a relationship seed, and an
    endpoint that is no node seed is a node without attributes. *)
Theorem create_knowledge_graph_adds_dangling_endpoints
    (P C : list (gmap string string)) (R : list rel_seed) :
  (is_ok (create_knowledge_graph P C R)
   <-> Forall node_seed_ok (P ++ C) /\ Forall rel_seed_ok R)
  /\ (forall G, create_knowledge_graph P C R = Ok G ->
        wf_graph G
        /\ (forall n, n ∈ node_ids G <->
              n ∈ seed_ids (P ++ C)
              \/ exists r, r ∈ R /\ (n = seed_source r \/ n = seed_target r))
        /\ (forall n, n ∉ seed_ids (P ++ C) -> node_data G n = ∅)).
Proof.
  rewrite create_knowledge_graph_fold. split.
  - rewrite <- (foldM_ok_iff add_node_seed node_seed_ok empty_graph)
      by apply add_node_seed_ok_iff.
    unfold mbind, res_bind.
    destruct (foldM add_node_seed empty_graph (P ++ C)) as [G0|e].
    + rewrite (foldM_ok_iff add_edge_seed rel_seed_ok) by apply add_edge_seed_ok_iff.
      split; [intros ?; split; [by exists G0 | done] | tauto].
    + split; [by intros [? ?] | by intros [[? ?] _]].
  - intros G. unfold mbind, res_bind.
    destruct (foldM add_node_seed empty_graph (P ++ C)) as [G0|e] eqn:H0; [|done].
    intros HG. apply node_phase in H0 as [Hwf0 Hids0].
    apply edge_phase in HG as (Hwf & Hids & Hdata).
    assert (Hempty : wf_graph empty_graph).
    { split; [constructor | constructor]. }
    split; [by apply Hwf, Hwf0|]. split.
    + intros n. rewrite Hids, Hids0. unfold node_ids at 1. simpl.
      rewrite elem_of_nil. tauto.
    + intros n Hn. rewrite Hdata. unfold node_data.
      rewrite assoc_not_elem; [done|].
      intros Hin. apply Hn. apply Hids0 in Hin as [Hin|Hin]; [|done].
      by apply elem_of_nil in Hin.
Qed.

(** C1 as stated fails: a relationship seed whose target is no node seed
    does not stop the construction; the target becomes a node without
    attributes. *)
Lemma dangling_endpoint_is_accepted :
  bool_decide ("c9" ∈ seed_ids (dangling_people ++ [])) = false
  /\ exists G,
       create_knowledge_graph dangling_people [] dangling_relationships = Ok G
       /\ node_ids G = ["p1"; "c9"]
       /\ node_data G "c9" = ∅
       /\ (fun e => (e_src e, e_tgt e)) <$> g_edges G = [("p1", "c9")].
Proof.
  split; [vm_compute; reflexivity|].
  eexists. split; [vm_compute; reflexivity|].
  split; [reflexivity|]. split; [vm_compute; reflexivity | reflexivity].
Qed.

(** ** Entity kinds *)

Lemma has_person_token_spec (full_name : string) :
  has_person_token full_name = true
  <-> exists tok, tok ∈ name_tokens full_name /\ tok ∈ PERSON_NAMES.
Proof.
  unfold has_person_token. rewrite existsb_exists. split.
  - intros (tok & Htok%list_elem_of_In & Hp%bool_decide_eq_true). by exists tok.
  - intros (tok & Htok & Hp). exists tok. split.
    + by apply list_elem_of_In.
    + by apply bool_decide_eq_true.
Qed.

Lemma detect_fold_elem (q : string) (l : list string)
    (st : gset string * list entity) (e : entity) :
  e ∈ (fold_left (detect_step q) l st).2 ->
  e ∈ st.2 \/ exists ent, ent ∈ l /\ e = entity_of ent.
Proof.
  revert st. induction l as [|ent l IH]; intros st; simpl; [by left|].
  intros [He|(ent' & Hent' & ->)]%IH.
  - unfold detect_step in He. destruct (PyStr.str_in ent q); [|by left].
    destruct (bool_decide _); [by left|]. simpl in He.
    apply elem_of_app in He as [He| ->%list_elem_of_singleton]; [by left|].
    right. exists ent. split; [by left | done].
  - right. exists ent'. split; [by right | done].
Qed.

Lemma detect_entities_from_catalog (question : string) (e : entity) :
  e ∈ detect_entities question ->
  e ∈ map entity_of (sorted_by_len_desc KNOWN_ENTITIES).
Proof.
  unfold detect_entities. intros [He|(ent & Hent & ->)]%detect_fold_elem.
  - by apply elem_of_nil in He.
  - apply list_elem_of_fmap. by exists ent.
Qed.

Lemma catalog_kind_by_tokens :
  Forall kind_by_tokens (map entity_of (sorted_by_len_desc KNOWN_ENTITIES)).
Proof. apply (bool_decide_unpack _). vm_compute. exact I. Qed.

(** C7, as the code has it: every entity emitted for a question comes from
    the catalog, carries the title-cased canonical name, and has type
    ["person"] exactly when a token of its canonical name is in the roster
    of person names; every other entity has type ["company"]. *)
Theorem detect_entities_kind (question : string) (e : entity) :
  e ∈ detect_entities question ->
  matched_text e ∈ KNOWN_ENTITIES
  /\ ent_name e = PyStr.title (canonical_name e)
  /\ (ent_type e = "person"
      <-> exists tok, tok ∈ name_tokens (canonical_name e) /\ tok ∈ PERSON_NAMES)
  /\ (ent_type e = "company"
      <-> ~ exists tok, tok ∈ name_tokens (canonical_name e) /\ tok ∈ PERSON_NAMES).
Proof.
  intros He%detect_entities_from_catalog.
  pose proof (proj1 (Forall_forall _ _) catalog_kind_by_tokens e He)
    as (Hcat & Hname & Htype).
  split; [done|]. split; [done|].
  rewrite <- has_person_token_spec, Htype.
  destruct (has_person_token (canonical_name e)).
  - split; [done|]. split; [discriminate|]. intros H. by destruct H.
  - split; [split; discriminate|]. split; [by intros _ ?|done].
Qed.

(** The statement of C7 for the entity detected from the mention of Tesla. *)
Lemma detect_entities_kind_witness :
  matched_text (Entity "Tesla" "company" "tesla") ∈ KNOWN_ENTITIES
  /\ ent_name (Entity "Tesla" "company" "tesla")
     = PyStr.title (canonical_name (Entity "Tesla" "company" "tesla"))
  /\ (ent_type (Entity "Tesla" "company" "tesla") = "person"
      <-> exists tok, tok ∈ name_tokens (canonical_name (Entity "Tesla" "company" "tesla"))
                      /\ tok ∈ PERSON_NAMES)
  /\ (ent_type (Entity "Tesla" "company" "tesla") = "company"
      <-> ~ exists tok, tok ∈ name_tokens (canonical_name (Entity "Tesla" "company" "tesla"))
                        /\ tok ∈ PERSON_NAMES).
Proof.
  apply (detect_entities_kind "Who leads Tesla and what does Musk own?").
  apply (list_elem_of_lookup_2 _ 0%nat). vm_compute. reflexivity.
Defined.

(** C7 as stated fails on the label: an entity that is no person is emitted
    with type ["company"]; the string ["organization"] is never used. *)
Lemma detect_entities_emits_company :
  detect_entities "Tell me about Tesla" = [Entity "Tesla" "company" "tesla"]
  /\ has_person_token (canonical_name (Entity "Tesla" "company" "tesla")) = false
  /\ bool_decide (ent_type (Entity "Tesla" "company" "tesla") = "organization") = false.
Proof. split; [vm_compute; reflexivity|]. split; vm_compute; reflexivity. Qed.

(** ** The no-grounding sentinel *)

Lemma join_cons_cons (sep p q : string) (r : list string) :
  PyStr.join sep (p :: q :: r) = p +:+ sep +:+ PyStr.join sep (q :: r).
Proof. done. Qed.

Lemma build_context_sentinel_iff (facts : list fact) (entities : list entity) :
  build_context facts entities = NO_INFO <-> facts = [].
Proof.
  split; [|by intros ->].
  destruct facts as [|f facts]; [done|]. unfold build_context, NO_INFO.
  destruct entities as [|e entities]; simpl app; simpl map;
    rewrite join_cons_cons; simpl; discriminate.
Qed.

(** The test of the generation stage, for every input: [build_context]
    returns the sentinel exactly for an empty fact list, and so does the
    context stage for traversals without facts. The generation stage looks
    for the phrase ["No relevant information"] anywhere in the context.
    When the phrase occurs, as it does in the sentinel, the answer is the
    fixed message and the generation service is not called; when it does
    not occur, an available service is called exactly once with the
    prompt, and without a service the raw context is shown. *)
Theorem sentinel_and_generate_short_circuit (facts : list fact)
    (entities : list entity) (LLM_CLIENT : option (string -> llm_reply))
    (st : GraphRAGState) :
  (build_context facts entities = NO_INFO <-> facts = [])
  /\ (context (build_context_node st) = NO_INFO
      <-> collect_unique_facts (traversal_results st) = [])
  /\ substring "No relevant information" NO_INFO
  /\ (substring "No relevant information" (context st) ->
      generate_answer_node LLM_CLIENT st = (with_answer st NO_ANSWER, []))
  /\ (~ substring "No relevant information" (context st) ->
      (LLM_CLIENT = None ->
       generate_answer_node LLM_CLIENT st
       = (with_answer st (raw_context_answer (context st)), []))
      /\ (forall invoke, LLM_CLIENT = Some invoke ->
          (generate_answer_node LLM_CLIENT st).2
          = [prompt_of (context st) (question st)])).
Proof.
  split; [apply build_context_sentinel_iff|].
  split; [apply build_context_sentinel_iff|].
  split; [apply str_in_spec; vm_compute; reflexivity|].
  unfold generate_answer_node. split.
  - intros Hin%str_in_spec. by rewrite Hin.
  - intros Hnot.
    assert (PyStr.str_in "No relevant information" (context st) = false) as ->.
    { destruct (PyStr.str_in _ _) eqn:H; [|done]. by apply str_in_spec in H. }
    split.
    + by intros ->.
    + intros invoke ->. by destruct (invoke _).
Qed.

(** C2: the generation stage is meant to skip the service exactly when
    the context is the sentinel (its log line reads "No context available,
    skipping LLM"), and it misses that by testing for a phrase of the
    sentinel anywhere in the context. Here the context is rendered from one
    fact and is not the sentinel, and the stage still answers with the
    fixed message without calling the available service, because a
    rendered name contains the phrase. The state is the one the pipeline
    reaches on the question, in a graph built from seeds. *)
Lemma phrase_in_context_short_circuits :
  exists st,
    run_graph_rag misleading_graph (Some (fun _ => Content "generated"))
                  "Tell me about Tesla"
    = Some (Ok (st, []))
    /\ answer st = NO_ANSWER
    /\ length (collect_unique_facts (traversal_results st)) = 1%nat
    /\ context st
       = "Information about: Tesla" +:+ nl +:+ nl +:+ "Known facts:" +:+ nl
         +:+ "- No relevant information Ltd supplies to Tesla"
    /\ bool_decide (context st = NO_INFO) = false.
Proof.
  eexists. split; [vm_compute; reflexivity|].
  split; [reflexivity|]. split; [vm_compute; reflexivity|].
  split; vm_compute; reflexivity.
Qed.

(** ** The search for a fresh edge key ends within its bound *)

Lemma length_filter_mono {A} (P Q : A -> Prop) `{!forall x, Decision (P x)}
    `{!forall x, Decision (Q x)} (l : list A) :
  (forall x, P x -> Q x) ->
  (length (filter P l) <= length (filter Q l))%nat.
Proof.
  intros HPQ. induction l as [|y l IH]; [done|]. rewrite !filter_cons.
  destruct (decide (P y)) as [Hy|Hy].
  - rewrite decide_True by auto. simpl. lia.
  - destruct (decide (Q y)); simpl; lia.
Qed.

Lemma length_filter_lt {A} (P Q : A -> Prop) `{!forall x, Decision (P x)}
    `{!forall x, Decision (Q x)} (l : list A) (x : A) :
  (forall x, P x -> Q x) -> x ∈ l -> Q x -> ~ P x ->
  (length (filter P l) < length (filter Q l))%nat.
Proof.
  intros HPQ Hx HQ HP. induction l as [|y l IH]; [by apply elem_of_nil in Hx|].
  rewrite !filter_cons. apply elem_of_cons in Hx as [<-|Hx].
  - rewrite decide_False, decide_True by done. simpl.
    pose proof (length_filter_mono P Q l HPQ). lia.
  - specialize (IH Hx). destruct (decide (P y)) as [Hy|Hy].
    + rewrite decide_True by auto. simpl. lia.
    + destruct (decide (Q y)); simpl; lia.
Qed.

Lemma keys_from_succ (k : Z) (kd : list edge) :
  key_in (VInt k) kd = true -> (keys_from (k + 1) kd < keys_from k kd)%nat.
Proof.
  unfold key_in, keys_from. rewrite bool_decide_eq_true.
  intros (e & Hk & He)%list_elem_of_fmap.
  apply (length_filter_lt _ _ kd e); [|done| |].
  - intros x. unfold int_key_from. destruct (e_key x); [done|].
    rewrite !Z.leb_le. lia.
  - unfold int_key_from. rewrite <- Hk. apply Z.leb_le. lia.
  - unfold int_key_from. rewrite <- Hk. rewrite Z.leb_le. lia.
Qed.

Lemma next_free_key_fresh (fuel : nat) (k : Z) (kd : list edge) :
  (keys_from k kd <= fuel)%nat ->
  key_in (VInt (next_free_key fuel k kd)) kd = false.
Proof.
  revert k. induction fuel as [|fuel IH]; intros k Hc; simpl.
  - destruct (key_in (VInt k) kd) eqn:Hk; [|done].
    apply keys_from_succ in Hk. lia.
  - destruct (key_in (VInt k) kd) eqn:Hk; [|done].
    apply IH. apply keys_from_succ in Hk. lia.
Qed.

(** [new_edge_key] returns a key that no edge between the two nodes has. *)
Lemma new_edge_key_fresh (G : MultiDiGraph) (u v : string) :
  key_in (new_edge_key G u v) (keydict G u v) = false.
Proof.
  unfold new_edge_key. destruct (keydict G u v) as [|e kd] eqn:Hkd; [done|].
  apply next_free_key_fresh. unfold keys_from. apply length_filter.
Qed.

(** ** The shipped graph and the scenarios of the specification *)

Example KG_built : create_knowledge_graph PEOPLE COMPANIES RELATIONSHIPS = Ok KG.
Proof. vm_compute. reflexivity. Qed.

Example KG_wf : wf_graph KG.
Proof. apply (bool_decide_unpack _). vm_compute. exact I. Qed.

Example KG_size : length (g_nodes KG) = 13%nat /\ length (g_edges KG) = 17%nat.
Proof. split; vm_compute; reflexivity. Qed.

(** A question without a known entity: the context is the sentinel and the
    answer the fixed message, whether or not a generation service is
    there; the service is not called. *)
Example scenario_no_entity (LLM_CLIENT : option (string -> llm_reply)) :
  run_graph_rag KG LLM_CLIENT "hello"
  = Some (Ok (State "hello" [] [] [] NO_INFO NO_ANSWER, [])).
Proof. vm_compute. reflexivity. Qed.

(** "What companies did Elon Musk found?": one person, node [p1], and the
    three founding sentences in the context. *)
Example scenario_elon_musk :
  exists st calls,
    run_graph_rag KG None "What companies did Elon Musk found?" = Some (Ok (st, calls))
    /\ detected_entities st = [Entity "Elon Musk" "person" "elon musk"]
    /\ node_id <$> matched_nodes st = ["p1"]
    /\ PyStr.str_in "Elon Musk founded Tesla in 2003" (context st) = true
    /\ PyStr.str_in "Elon Musk founded SpaceX in 2002" (context st) = true
    /\ PyStr.str_in "Elon Musk founded Neuralink in 2016" (context st) = true.
Proof.
  do 2 eexists. split; [vm_compute; reflexivity|].
  repeat split; vm_compute; reflexivity.
Qed.

(** "What is the relationship between Microsoft and OpenAI?": two
    companies, and both relationships between them in the context. *)
Example scenario_microsoft_openai :
  exists st calls,
    run_graph_rag KG None "What is the relationship between Microsoft and OpenAI?"
    = Some (Ok (st, calls))
    /\ ent_name <$> detected_entities st = ["Microsoft"; "Openai"]
    /\ PyStr.str_in "Microsoft invested in OpenAI in 2023 ($13B)" (context st) = true
    /\ PyStr.str_in "Microsoft partners with OpenAI" (context st) = true.
Proof.
  do 2 eexists. split; [vm_compute; reflexivity|].
  repeat split; vm_compute; reflexivity.
Qed.

(** ** Further facts about the string operations *)

Lemma lower_char_idemp (c : ascii) :
  PyStr.lower_char (PyStr.lower_char c) = PyStr.lower_char c.
Proof. destruct c as [[] [] [] [] [] [] [] []]; reflexivity. Qed.

Lemma lower_idemp (s : string) : PyStr.lower (PyStr.lower s) = PyStr.lower s.
Proof.
  induction s as [|c s IH]; simpl; [done|]. by rewrite lower_char_idemp, IH.
Qed.

Lemma string_app_assoc (a b c : string) : (a +:+ b) +:+ c = a +:+ (b +:+ c).
Proof. induction a as [|x a IH]; simpl; [done|]. by rewrite IH. Qed.

Lemma substring_refl (s : string) : substring s s.
Proof. exists "", "". simpl. by rewrite string_app_nil_r. Qed.

Lemma substring_trans (a b c : string) :
  substring a b -> substring b c -> substring a c.
Proof.
  intros (p & q & ->) (p' & q' & ->). exists (p' +:+ p), (q +:+ q').
  by rewrite !string_app_assoc.
Qed.

Lemma substring_app_l (a s t : string) : substring a s -> substring a (s +:+ t).
Proof.
  intros (p & q & ->). exists p, (q +:+ t). by rewrite !string_app_assoc.
Qed.

Lemma substring_app_r (a s t : string) : substring a t -> substring a (s +:+ t).
Proof.
  intros (p & q & ->). exists (s +:+ p), q. by rewrite !string_app_assoc.
Qed.

(** Every part of a joined string occurs in it. *)
Lemma substring_join (sep x : string) (parts : list string) :
  x ∈ parts -> substring x (PyStr.join sep parts).
Proof.
  induction parts as [|p parts IH]; [by intros ?%elem_of_nil|].
  intros Hx. destruct parts as [|p' parts].
  - apply list_elem_of_singleton in Hx as ->. simpl. apply substring_refl.
  - rewrite join_cons_cons. apply elem_of_cons in Hx as [->|Hx].
    + apply substring_app_l, substring_refl.
    + apply substring_app_r, substring_app_r. by apply IH.
Qed.

(** [strip] leaves no white space at either end. *)
Lemma rstrip_empty_or_head (s : string) :
  PyStr.rstrip s = ""
  \/ exists c r r', s = String c r /\ PyStr.rstrip s = String c r'.
Proof.
  destruct s as [|c r]; [by left|]. simpl.
  destruct (PyStr.rstrip r) as [|d r'].
  - destruct (PyStr.is_space c); [by left|]. right. by exists c, r, "".
  - right. by exists c, r, (String d r').
Qed.

Lemma rstrip_idemp (s : string) : PyStr.rstrip (PyStr.rstrip s) = PyStr.rstrip s.
Proof.
  induction s as [|c r IH]; simpl; [done|].
  destruct (PyStr.rstrip r) as [|d r'] eqn:Hr.
  - destruct (PyStr.is_space c) eqn:Hc; [done|]. simpl. by rewrite Hc.
  - simpl in *. rewrite IH. done.
Qed.

Lemma lstrip_fixed (s : string) :
  (forall c r, s = String c r -> PyStr.is_space c = false) -> PyStr.lstrip s = s.
Proof.
  destruct s as [|c r]; [done|]. intros H. simpl. by rewrite (H c r).
Qed.

Lemma lstrip_head (s : string) (c : ascii) (r : string) :
  PyStr.lstrip s = String c r -> PyStr.is_space c = false.
Proof.
  induction s as [|d s IH]; simpl; [done|].
  destruct (PyStr.is_space d) eqn:Hd; [done|]. by intros [= <- _].
Qed.

Lemma strip_idemp (s : string) : PyStr.strip (PyStr.strip s) = PyStr.strip s.
Proof.
  unfold PyStr.strip.
  rewrite (lstrip_fixed (PyStr.rstrip (PyStr.lstrip s))); [apply rstrip_idemp|].
  intros c r Hcr.
  destruct (rstrip_empty_or_head (PyStr.lstrip s)) as [He|(c' & r0 & r' & Hs & Hr)].
  - rewrite He in Hcr. discriminate.
  - rewrite Hr in Hcr. injection Hcr as -> _. by apply (lstrip_head s c r0).
Qed.

(** ** The command loop *)

(** X: a line reaches the pipeline only as its stripped, non-empty text,
    and never when that text is one of the commands in any letter case; a
    line is skipped exactly when it is blank. *)
Theorem main_step_runs_stripped_questions (line q : string) :
  main_step line = RunPipeline q ->
  q = PyStr.strip line
  /\ PyStr.strip q = q
  /\ q <> ""
  /\ (PyStr.lower q ∉ ["quit"; "exit"; "q"; "help"; "stats"])
  /\ main_step q = RunPipeline q.
Proof.
  unfold main_step. intros H.
  destruct (bool_decide (PyStr.strip line = "")) eqn:H1; [done|].
  destruct (bool_decide (PyStr.lower (PyStr.strip line) ∈ ["quit"; "exit"; "q"])) eqn:H2;
    [done|].
  destruct (bool_decide (PyStr.lower (PyStr.strip line) = "help")) eqn:H3; [done|].
  destruct (bool_decide (PyStr.lower (PyStr.strip line) = "stats")) eqn:H4; [done|].
  injection H as <-.
  apply bool_decide_eq_false in H1, H2, H3, H4.
  split; [done|]. split; [apply strip_idemp|]. split; [done|]. split.
  - rewrite !elem_of_cons, elem_of_nil in *. tauto.
  - rewrite strip_idemp.
    rewrite (bool_decide_eq_false_2 _ H1), (bool_decide_eq_false_2 _ H2).
    by rewrite (bool_decide_eq_false_2 _ H3), (bool_decide_eq_false_2 _ H4).
Qed.

(** The statement for a question typed with blanks around it. *)
Lemma main_step_runs_stripped_questions_witness :
  "Who leads OpenAI?" = PyStr.strip "  Who leads OpenAI? "
  /\ PyStr.strip "Who leads OpenAI?" = "Who leads OpenAI?"
  /\ "Who leads OpenAI?" <> ""
  /\ (PyStr.lower "Who leads OpenAI?" ∉ ["quit"; "exit"; "q"; "help"; "stats"])
  /\ main_step "Who leads OpenAI?" = RunPipeline "Who leads OpenAI?".
Proof.
  apply (main_step_runs_stripped_questions "  Who leads OpenAI? "). reflexivity.
Defined.

Lemma main_loop_app (pre : list console_event) (rest : list console_event) :
  Forall (fun e => ~ quits e) pre ->
  main_loop (pre ++ rest)
  = omap (fun e => match e with Line s => Some (main_step s) | Interrupt => None end) pre
    ++ main_loop rest.
Proof.
  induction 1 as [|e pre He _ IH]; [done|]. simpl.
  destruct e as [s|]; [|by destruct He]. simpl in *.
  destruct (main_step s); by rewrite ?IH.
Qed.

(** X: the loop ends at the first quit command or interrupt: whatever
    follows is not read, and every round before it is carried out in
    order. *)
Theorem main_loop_stops_at_quit (pre post : list console_event) (e : console_event) :
  Forall (fun e => ~ quits e) pre -> quits e ->
  main_loop (pre ++ e :: post)
  = omap (fun e => match e with Line s => Some (main_step s) | Interrupt => None end) pre
    ++ [Quit].
Proof.
  intros Hpre He. rewrite main_loop_app by done. f_equal.
  destruct e as [s|]; simpl in *; [by rewrite He | done].
Qed.

(** The statement for a session of one question, a quit and a further
    line. *)
Lemma main_loop_stops_at_quit_witness :
  main_loop ([Line "Who leads OpenAI?"] ++ Line " EXIT " :: [Line "Tell me about NVIDIA"])
  = omap (fun e => match e with Line s => Some (main_step s) | Interrupt => None end)
         [Line "Who leads OpenAI?"]
    ++ [Quit].
Proof.
  apply (main_loop_stops_at_quit [Line "Who leads OpenAI?"]
           [Line "Tell me about NVIDIA"] (Line " EXIT ")).
  - constructor; [|constructor]. simpl. discriminate.
  - reflexivity.
Defined.

(** ** Further facts about the name lookup *)

Lemma assoc_Some_elem {V} (k : string) (l : list (string * V)) (v : V) :
  assoc k l = Some v -> (k, v) ∈ l.
Proof.
  induction l as [|[k' w] l IH]; simpl; [done|].
  case_decide as Hk.
  - intros [= <-]. subst. by left.
  - intros H. right. by apply IH.
Qed.

Lemma get_node_by_name_elem (G : MultiDiGraph) (query : string)
    (p : string * gmap string string) :
  p ∈ get_node_by_name G query
  <-> p ∈ g_nodes G /\ mutual_substring (PyStr.lower query) (lowered_name p).
Proof.
  rewrite get_node_by_name_filter, list_elem_of_filter, name_matches_spec. tauto.
Qed.

(** X: the lookup does not depend on the letter case of the query; a node is
    found under its own display name; and a node without a display name, or
    with an empty one, is found under every query. *)
Theorem get_node_by_name_case_and_nameless (G : MultiDiGraph) (query : string)
    (p : string * gmap string string) :
  p ∈ g_nodes G ->
  get_node_by_name G (PyStr.lower query) = get_node_by_name G query
  /\ p ∈ get_node_by_name G (default "" (p.2 !! "name"))
  /\ (p.2 !! "name" = None \/ p.2 !! "name" = Some "" -> p ∈ get_node_by_name G query).
Proof.
  intros Hp. split; [|split].
  - by rewrite !get_node_by_name_filter, lower_idemp.
  - apply get_node_by_name_elem. split; [done|]. left. apply substring_refl.
  - intros Hname. apply get_node_by_name_elem. split; [done|]. right.
    unfold lowered_name. destruct Hname as [-> | ->]; apply substring_empty.
Qed.

(** The statement for a node of [cycle_graph], which has no attributes,
    under a query for a person. *)
Lemma get_node_by_name_case_and_nameless_witness :
  get_node_by_name cycle_graph (PyStr.lower "Elon Musk")
  = get_node_by_name cycle_graph "Elon Musk"
  /\ ("a", ∅) ∈ get_node_by_name cycle_graph
                   (default "" ((("a", ∅) : string * gmap string string).2 !! "name"))
  /\ ((("a", ∅) : string * gmap string string).2 !! "name" = None
      \/ (("a", ∅) : string * gmap string string).2 !! "name" = Some "" ->
      ("a", ∅) ∈ get_node_by_name cycle_graph "Elon Musk").
Proof.
  apply (get_node_by_name_case_and_nameless cycle_graph "Elon Musk" ("a", ∅)).
  apply (list_elem_of_lookup_2 _ 0%nat). vm_compute. reflexivity.
Defined.

(** ** What construction stores *)

Lemma assoc_map_update {V} (f : V -> V) (n m : string) (l : list (string * V)) :
  assoc m (map (fun p => if decide (p.1 = n) then (p.1, f p.2) else p) l)
  = if decide (m = n) then f <$> assoc m l else assoc m l.
Proof.
  induction l as [|[k w] l IH]; simpl.
  - by case_decide.
  - destruct (decide (k = n)) as [Hkn|Hkn]; simpl.
    + subst k. destruct (decide (n = m)) as [Hnm|Hnm].
      * subst m. by rewrite decide_True.
      * rewrite IH. done.
    + destruct (decide (k = m)) as [Hkm|Hkm].
      * subst m. by rewrite decide_False.
      * apply IH.
Qed.

Lemma node_data_add_node (G : MultiDiGraph) (n m : string) (attr : gmap string string) :
  node_data (add_node G n attr) m
  = if decide (m = n) then attr ∪ node_data G n else node_data G m.
Proof.
  unfold add_node, node_data. destruct (has_node G n) eqn:Hn; simpl.
  - rewrite (assoc_map_update (fun d => attr ∪ d)).
    apply has_node_true, assoc_elem_of in Hn as [d Hd].
    case_decide as Hm; [|done]. subst m. by rewrite Hd.
  - apply has_node_false in Hn. rewrite assoc_snoc.
    destruct (decide (m = n)) as [Hm|Hm].
    + subst m. rewrite (assoc_not_elem _ n Hn). rewrite decide_True by done.
      simpl. by rewrite (right_id_L ∅ (∪)).
    + rewrite decide_False by congruence. by destruct (assoc m (g_nodes G)).
Qed.

Lemma node_phase_data (l : list (gmap string string)) (G G' : MultiDiGraph) (n : string) :
  foldM add_node_seed G l = Ok G' ->
  node_data G' n
  = fold_left (fun acc seed => seed ∪ acc)
              (filter (fun seed => seed !! "id" = Some n) l) (node_data G n).
Proof.
  revert G. induction l as [|seed l IH]; intros G; cbn [foldM].
  - by intros [= <-].
  - unfold mbind, res_bind.
    destruct (add_node_seed G seed) as [G1|e] eqn:H1; [|done].
    intros HG'. rewrite (IH _ HG'). unfold add_node_seed in H1.
    destruct (seed !! "id") as [m|] eqn:Hid; [|done].
    destruct (_ || _); [done|]. injection H1 as <-.
    rewrite filter_cons, node_data_add_node.
    destruct (decide (n = m)) as [->|Hnm].
    + by rewrite decide_True by done.
    + rewrite decide_False; [done|]. congruence.
Qed.

(** The outcome of a construction that succeeds, phase by phase. *)
Lemma create_knowledge_graph_phases (P C : list (gmap string string))
    (R : list rel_seed) (G : MultiDiGraph) :
  create_knowledge_graph P C R = Ok G ->
  exists G0,
    foldM add_node_seed empty_graph (P ++ C) = Ok G0
    /\ foldM add_edge_seed G0 R = Ok G
    /\ g_edges G0 = []
    /\ wf_graph G
    /\ (forall n, n ∈ node_ids G <-> n ∈ seed_ids (P ++ C) \/ n ∈ seed_endpoints R)
    /\ (forall n, node_data G n = merged_seed n (P ++ C)).
Proof.
  rewrite create_knowledge_graph_fold. unfold mbind, res_bind.
  destruct (foldM add_node_seed empty_graph (P ++ C)) as [G0|e] eqn:H0; [|done].
  intros HG. exists G0. split; [done|]. split; [done|].
  pose proof (node_phase _ _ _ H0) as [Hwf0 Hids0].
  pose proof (edge_phase _ _ _ HG) as (Hwf & Hids & Hdata).
  assert (Hempty : wf_graph empty_graph) by (split; constructor).
  split; [|split; [by apply Hwf, Hwf0|split]].
  - clear -H0. revert H0. generalize (P ++ C). intros l.
    assert (Hgen : forall G1, g_edges G1 = [] ->
              foldM add_node_seed G1 l = Ok G0 -> g_edges G0 = []);
      [|by apply Hgen].
    induction l as [|seed l IH]; intros G1 HG1; cbn [foldM].
    + by intros [= <-].
    + unfold mbind, res_bind.
      destruct (add_node_seed G1 seed) as [G2|e] eqn:H2; [|done].
      apply IH. unfold add_node_seed in H2.
      destruct (seed !! "id"); [|done]. destruct (_ || _); [done|].
      injection H2 as <-. unfold add_node. by destruct (has_node G1 s).
  - intros n. rewrite Hids, Hids0. unfold node_ids at 1. simpl.
    rewrite elem_of_nil. unfold seed_endpoints.
    split.
    + intros [[[]|?]|(r & Hr & Hn)]; [by left|]. right.
      apply list_elem_of_In, in_flat_map. exists r.
      split; [by apply list_elem_of_In|]. simpl. destruct Hn as [->| ->]; tauto.
    + intros [?|Hn]; [by left; right|]. right.
      apply list_elem_of_In, in_flat_map in Hn as (r & Hr & Hn).
      exists r. split; [by apply list_elem_of_In|]. simpl in Hn.
      destruct Hn as [<-|[<-|[]]]; tauto.
  - intros n. rewrite Hdata, (node_phase_data _ _ _ n H0). done.
Qed.

(** X: a construction that succeeds stores, for every node id, the seeds
    that carry the id merged in their order, a later seed overriding an
    earlier one key by key; a node whose id is carried by one seed has
    exactly that seed (with its ["id"]) as attributes, and the lookup of the
    id returns it. *)
Theorem create_knowledge_graph_node_roundtrip (P C : list (gmap string string))
    (R : list rel_seed) (G : MultiDiGraph) (n : string) (seed : gmap string string) :
  create_knowledge_graph P C R = Ok G ->
  filter (fun s => s !! "id" = Some n) (P ++ C) = [seed] ->
  (forall m, node_data G m = merged_seed m (P ++ C))
  /\ nodes_get G n = Ok seed
  /\ (n, seed) ∈ g_nodes G
  /\ seed !! "id" = Some n.
Proof.
  intros (G0 & _ & _ & _ & Hwf & Hids & Hdata)%create_knowledge_graph_phases Hone.
  assert (Hseed : seed ∈ filter (fun s => s !! "id" = Some n) (P ++ C)).
  { rewrite Hone. by left. }
  apply list_elem_of_filter in Hseed as [Hid Hin].
  assert (Hn : n ∈ node_ids G).
  { apply Hids. left. unfold seed_ids. apply list_elem_of_omap. by exists seed. }
  assert (Hd : node_data G n = seed).
  { rewrite Hdata. unfold merged_seed. rewrite Hone. simpl.
    apply (right_id_L ∅ (∪)). }
  split; [done|]. split; [by rewrite nodes_get_ok, Hd|]. split; [|done].
  apply assoc_elem_of in Hn as [d Hd']. unfold node_data in Hd.
  rewrite Hd' in Hd. simpl in Hd. subst. by apply assoc_Some_elem.
Qed.

(** The statement for the shipped tables and the id [p1]. *)
Lemma create_knowledge_graph_node_roundtrip_witness :
  (forall m, node_data KG m = merged_seed m (PEOPLE ++ COMPANIES))
  /\ nodes_get KG "p1"
     = Ok (list_to_map [("id", "p1"); ("name", "Elon Musk"); ("type", "person"); ("role", "CEO")])
  /\ ("p1", list_to_map [("id", "p1"); ("name", "Elon Musk"); ("type", "person"); ("role", "CEO")])
     ∈ g_nodes KG
  /\ (list_to_map [("id", "p1"); ("name", "Elon Musk"); ("type", "person"); ("role", "CEO")]
        : gmap string string) !! "id" = Some "p1".
Proof.
  apply (create_knowledge_graph_node_roundtrip PEOPLE COMPANIES RELATIONSHIPS).
  - vm_compute. reflexivity.
  - vm_compute. reflexivity.
Defined.

Lemma g_edges_ensure_node (G : MultiDiGraph) (n : string) :
  g_edges (ensure_node G n) = g_edges G.
Proof. unfold ensure_node. by destruct (has_node G n). Qed.

(** An edge added without a key is a new edge at the end of the edge list:
    its key is fresh. *)
Lemma add_edge_None_edges (G : MultiDiGraph) (u v : string) (attr : gmap string value) :
  edge_triple <$> g_edges (add_edge G u v None attr)
  = (edge_triple <$> g_edges G) ++ [(u, v, attr)].
Proof.
  unfold add_edge. rewrite new_edge_key_fresh. simpl.
  by rewrite fmap_app, !g_edges_ensure_node.
Qed.

Lemma edge_phase_edges (l : list rel_seed) (G G' : MultiDiGraph) :
  Forall (fun r => r.2 !! "key" = None) l ->
  foldM add_edge_seed G l = Ok G' ->
  edge_triple <$> g_edges G' = (edge_triple <$> g_edges G) ++ (seed_triple <$> l).
Proof.
  intros Hl. revert G. induction Hl as [|r l Hr _ IH]; intros G; cbn [foldM].
  - intros [= <-]. by rewrite app_nil_r.
  - unfold mbind, res_bind.
    destruct (add_edge_seed G r) as [G1|e] eqn:H1; [|done].
    intros HG'. rewrite (IH _ HG').
    destruct r as [[[s t] rel] attrs]. unfold add_edge_seed in H1. simpl in Hr.
    destruct (bool_decide _); [done|]. destruct (_ || _); [done|].
    injection H1 as <-. rewrite Hr, add_edge_None_edges.
    rewrite delete_id by done. by rewrite <- app_assoc.
Qed.

(** X: when no relationship seed has a ["key"] attribute, a construction
    that succeeds turns every relationship seed into an edge of its own, in
    the order of the seeds: repeated seeds give parallel edges, and the edge
    count of the statistics is the number of seeds. *)
Theorem create_knowledge_graph_edge_roundtrip (P C : list (gmap string string))
    (R : list rel_seed) (G : MultiDiGraph) :
  create_knowledge_graph P C R = Ok G ->
  Forall (fun r => r.2 !! "key" = None) R ->
  edge_triple <$> g_edges G = seed_triple <$> R
  /\ total_edges (get_graph_stats G) = length R.
Proof.
  intros (G0 & _ & HG & Hnil & _)%create_knowledge_graph_phases Hkeys.
  pose proof (edge_phase_edges R G0 G Hkeys HG) as Hedges.
  rewrite Hnil in Hedges. simpl in Hedges. split; [done|].
  simpl. by rewrite <- (length_fmap edge_triple), Hedges, length_fmap.
Qed.

(** The statement for the shipped tables. *)
Lemma create_knowledge_graph_edge_roundtrip_witness :
  edge_triple <$> g_edges KG = seed_triple <$> RELATIONSHIPS
  /\ total_edges (get_graph_stats KG) = length RELATIONSHIPS.
Proof.
  apply (create_knowledge_graph_edge_roundtrip PEOPLE COMPANIES).
  - vm_compute. reflexivity.
  - apply (bool_decide_unpack _). vm_compute. exact I.
Defined.

(** ** Statistics *)

Lemma length_filter_disjoint {A} (P Q : A -> Prop) `{!forall x, Decision (P x)}
    `{!forall x, Decision (Q x)} (l : list A) :
  (forall x, P x -> Q x -> False) ->
  (length (filter P l) + length (filter Q l)
   = length (filter (fun x => P x \/ Q x) l))%nat.
Proof.
  intros Hdis. induction l as [|x l IH]; [done|]. rewrite !filter_cons.
  destruct (decide (P x)) as [HP|HP], (decide (Q x)) as [HQ|HQ].
  - by destruct (Hdis x).
  - rewrite decide_True by tauto. simpl. lia.
  - rewrite decide_True by tauto. simpl. lia.
  - rewrite decide_False by tauto. lia.
Qed.

Lemma length_filter_missing {A} (P : A -> Prop) `{!forall x, Decision (P x)}
    (l : list A) (x : A) :
  x ∈ l -> ~ P x -> (length (filter P l) < length l)%nat.
Proof.
  intros Hx HP. induction l as [|y l IH]; [by apply elem_of_nil in Hx|].
  rewrite filter_cons. apply elem_of_cons in Hx as [<-|Hx].
  - rewrite decide_False by done. pose proof (length_filter P l). simpl. lia.
  - specialize (IH Hx). case_decide; simpl; lia.
Qed.

(** X: the statistics count every node once in the total and at most once in
    the two classes; a node whose ["type"] is neither ["person"] nor
    ["company"], such as one without attributes, is in the total and in
    neither class. For a graph that construction returns, the total is the
    number of distinct ids among the node seeds and the relationship
    endpoints, so an endpoint that is no node seed keeps the classes below
    the total. *)
Theorem get_graph_stats_classes (P C : list (gmap string string))
    (R : list rel_seed) (G : MultiDiGraph) :
  create_knowledge_graph P C R = Ok G ->
  (people (get_graph_stats G) + companies (get_graph_stats G)
   <= total_nodes (get_graph_stats G))%nat
  /\ total_nodes (get_graph_stats G)
     = size (list_to_set (seed_ids (P ++ C) ++ seed_endpoints R) : gset string)
  /\ (forall n, n ∈ seed_endpoints R -> n ∉ seed_ids (P ++ C) ->
      (people (get_graph_stats G) + companies (get_graph_stats G)
       < total_nodes (get_graph_stats G))%nat).
Proof.
  intros (G0 & _ & _ & _ & [Hnd _] & Hids & Hdata)%create_knowledge_graph_phases.
  unfold get_graph_stats. simpl.
  rewrite (length_filter_disjoint _ _ (g_nodes G)) by (intros p ? ?; congruence).
  split; [apply length_filter|]. split.
  - rewrite <- (length_fmap fst). change (fst <$> g_nodes G) with (node_ids G).
    rewrite <- (size_list_to_set (C:=gset string)) by done.
    f_equal. apply set_eq. intros n.
    rewrite !elem_of_list_to_set, elem_of_app. apply Hids.
  - intros n Hend Hseed.
    assert (Hn : n ∈ node_ids G) by (apply Hids; by right).
    assert (Hd : node_data G n = ∅).
    { rewrite Hdata. unfold merged_seed. rewrite filter_none; [done|].
      intros seed Hs Hid. apply Hseed. unfold seed_ids.
      apply list_elem_of_omap. by exists seed. }
    assert (Hin : (n, ∅) ∈ g_nodes G).
    { apply assoc_elem_of in Hn as [d Hd']. unfold node_data in Hd.
      rewrite Hd' in Hd. simpl in Hd. subst. by apply assoc_Some_elem. }
    apply (length_filter_missing _ (g_nodes G) (n, ∅)); [done|].
    simpl. rewrite lookup_empty. intros [?|?]; discriminate.
Qed.

(** The statement for [dangling_people], whose relationship points at the
    unknown [c9]: one person, no company, two nodes. *)
Lemma get_graph_stats_classes_witness :
  exists G,
    create_knowledge_graph dangling_people [] dangling_relationships = Ok G
    /\ (people (get_graph_stats G) + companies (get_graph_stats G)
        <= total_nodes (get_graph_stats G))%nat
    /\ total_nodes (get_graph_stats G)
       = size (list_to_set (seed_ids (dangling_people ++ [])
                            ++ seed_endpoints dangling_relationships) : gset string)
    /\ (forall n, n ∈ seed_endpoints dangling_relationships ->
                  n ∉ seed_ids (dangling_people ++ []) ->
        (people (get_graph_stats G) + companies (get_graph_stats G)
         < total_nodes (get_graph_stats G))%nat).
Proof.
  eexists. split; [vm_compute; reflexivity|].
  apply (get_graph_stats_classes dangling_people [] dangling_relationships).
  vm_compute. reflexivity.
Defined.

(** ** Sorting by length *)

Lemma insert_by_len_Permutation (x : string) (l : list string) :
  insert_by_len x l ≡ₚ x :: l.
Proof.
  induction l as [|y l IH]; simpl; [done|].
  destruct (String.length x <=? String.length y)%nat; [|done].
  rewrite IH. apply Permutation_swap.
Qed.

Lemma insert_by_len_sorted (x : string) (l : list string) :
  StronglySorted longer_eq l -> StronglySorted longer_eq (insert_by_len x l).
Proof.
  induction 1 as [|y l Hl IH Hy]; simpl.
  - repeat constructor.
  - destruct (String.length x <=? String.length y)%nat eqn:Hxy.
    + apply Nat.leb_le in Hxy. constructor; [done|].
      rewrite insert_by_len_Permutation. by constructor.
    + apply Nat.leb_gt in Hxy. constructor; [by constructor|].
      constructor; [unfold longer_eq; lia|].
      eapply Forall_impl; [exact Hy|]. unfold longer_eq. intros z ?. lia.
Qed.

Lemma insert_by_len_stable (x : string) (l : list string) (n : nat) :
  StronglySorted longer_eq l ->
  filter (fun s => String.length s = n) (insert_by_len x l)
  = filter (fun s => String.length s = n) l
    ++ filter (fun s => String.length s = n) [x].
Proof.
  induction 1 as [|y l Hl IH Hy]; simpl; [done|].
  destruct (String.length x <=? String.length y)%nat eqn:Hxy.
  - rewrite !filter_cons, IH. by case_decide.
  - apply Nat.leb_gt in Hxy. rewrite (filter_cons _ x (y :: l)).
    rewrite (filter_cons _ x []), filter_nil.
    destruct (decide (String.length x = n)) as [Hx|Hx]; [|by rewrite app_nil_r].
    rewrite (filter_none (fun s => String.length s = n) (y :: l)); [done|].
    intros z [->|Hz]%elem_of_cons Hzn; [lia|].
    apply (proj1 (Forall_forall _ _) Hy) in Hz. unfold longer_eq in Hz. lia.
Qed.

Lemma fold_insert_by_len (l acc : list string) :
  StronglySorted longer_eq acc ->
  StronglySorted longer_eq (fold_left (fun acc x => insert_by_len x acc) l acc)
  /\ fold_left (fun acc x => insert_by_len x acc) l acc ≡ₚ acc ++ l
  /\ (forall n,
        filter (fun s => String.length s = n)
               (fold_left (fun acc x => insert_by_len x acc) l acc)
        = filter (fun s => String.length s = n) acc
          ++ filter (fun s => String.length s = n) l).
Proof.
  revert acc. induction l as [|x l IH]; intros acc Hacc; simpl.
  - split; [done|]. split; [by rewrite app_nil_r|].
    intros n. by rewrite app_nil_r.
  - destruct (IH (insert_by_len x acc)) as (Hs & Hp & Hf);
      [by apply insert_by_len_sorted|].
    split; [done|]. split.
    + rewrite Hp, insert_by_len_Permutation. simpl. apply Permutation_middle.
    + intros n. rewrite Hf, insert_by_len_stable by done.
      rewrite <- app_assoc. f_equal. rewrite (filter_cons _ x l).
      rewrite (filter_cons _ x []), filter_nil. by case_decide.
Qed.

(** X: the sort by length that the detection runs on its catalog returns
    the same strings, longest first, and keeps strings of equal length in
    the order of its input. *)
Theorem sorted_by_len_desc_stable_sort (l : list string) :
  sorted_by_len_desc l ≡ₚ l
  /\ StronglySorted longer_eq (sorted_by_len_desc l)
  /\ (forall n, filter (fun s => String.length s = n) (sorted_by_len_desc l)
                = filter (fun s => String.length s = n) l).
Proof.
  destruct (fold_insert_by_len l []) as (Hs & Hp & Hf); [constructor|].
  split; [exact Hp|]. split; [exact Hs|]. intros n. by rewrite Hf.
Qed.

(** ** What the detection emits *)

Lemma fold_detect_step (ql : string) (l : list string) (seen : gset string)
    (acc : list entity) :
  (fold_left (detect_step ql) l (seen, acc)).2 = acc ++ detect_from ql seen l.
Proof.
  revert seen acc. induction l as [|ent l IH]; intros seen acc; simpl.
  - by rewrite app_nil_r.
  - unfold detect_step at 2. simpl. fold (resolve ent).
    destruct (PyStr.str_in ent ql); [|apply IH].
    case_bool_decide; [apply IH|]. rewrite IH. by rewrite <- app_assoc.
Qed.

Lemma detect_entities_detect_from (question : string) :
  detect_entities question
  = detect_from (PyStr.lower question) ∅ (sorted_by_len_desc KNOWN_ENTITIES).
Proof. unfold detect_entities. by rewrite fold_detect_step. Qed.

Lemma detect_from_elem (ql : string) (seen : gset string) (l : list string) (e : entity) :
  e ∈ detect_from ql seen l ->
  (resolve (matched_text e) ∉ seen)
  /\ e = entity_of (matched_text e)
  /\ head (filter (fun ent => PyStr.str_in ent ql = true
                              /\ resolve ent = resolve (matched_text e)) l)
     = Some (matched_text e).
Proof.
  revert seen. induction l as [|ent l IH]; intros seen; simpl.
  - by intros ?%elem_of_nil.
  - rewrite filter_cons. destruct (PyStr.str_in ent ql) eqn:Hent.
    + case_bool_decide as Hseen.
      * intros He. destruct (IH _ He) as (Hfresh & Heq & Hhead).
        split; [done|]. split; [done|].
        rewrite decide_False; [done|]. intros [_ Hres]. congruence.
      * intros [->|He]%elem_of_cons.
        -- simpl. split; [done|]. split; [done|]. by rewrite decide_True.
        -- destruct (IH _ He) as (Hfresh & Heq & Hhead).
           split; [set_solver|]. split; [done|].
           rewrite decide_False; [done|]. intros [_ Hres]. set_solver.
    + intros He. destruct (IH _ He) as (Hfresh & Heq & Hhead).
      split; [done|]. split; [done|].
      rewrite decide_False; [done|]. intros [? _]. congruence.
Qed.

Lemma detect_from_complete (ql : string) (seen : gset string) (l : list string)
    (ent : string) :
  ent ∈ l -> PyStr.str_in ent ql = true -> resolve ent ∉ seen ->
  exists e, e ∈ detect_from ql seen l /\ resolve (matched_text e) = resolve ent.
Proof.
  revert seen. induction l as [|x l IH]; intros seen Hin Hocc Hfresh.
  - by apply elem_of_nil in Hin.
  - simpl. destruct (decide (resolve x = resolve ent /\ PyStr.str_in x ql = true))
      as [[Hres Hx]|Hne].
    + rewrite Hx, bool_decide_eq_false_2 by (by rewrite Hres).
      exists (entity_of x). split; [by left | done].
    + assert (Hl : ent ∈ l).
      { apply elem_of_cons in Hin as [->|?]; [|done]. by destruct Hne. }
      destruct (PyStr.str_in x ql) eqn:Hx; [|by apply IH].
      case_bool_decide; [by apply IH|].
      destruct (IH ({[resolve x]} ∪ seen) Hl Hocc) as (e & He & Hres).
      { intros [Heq%elem_of_singleton|?]%elem_of_union; [|done].
        apply Hne. by split. }
      exists e. split; [by right | done].
Qed.

Lemma detect_from_NoDup (ql : string) (seen : gset string) (l : list string) :
  NoDup ((fun e => resolve (matched_text e)) <$> detect_from ql seen l).
Proof.
  revert seen. induction l as [|ent l IH]; intros seen; simpl; [constructor|].
  destruct (PyStr.str_in ent ql); [|apply IH].
  case_bool_decide; [apply IH|]. simpl. constructor; [|apply IH].
  intros (e & Hres & He)%list_elem_of_fmap.
  apply detect_from_elem in He as (Hfresh & _). rewrite <- Hres in Hfresh.
  set_solver.
Qed.

Lemma detect_from_sublist (ql : string) (seen : gset string) (l : list string) :
  sublist (matched_text <$> detect_from ql seen l) l.
Proof.
  revert seen. induction l as [|ent l IH]; intros seen; simpl; [done|].
  destruct (PyStr.str_in ent ql); [|by apply sublist_cons].
  case_bool_decide; [by apply sublist_cons|]. simpl. by apply sublist_skip.
Qed.

Lemma StronglySorted_sublist {A} (R : A -> A -> Prop) (l1 l2 : list A) :
  sublist l1 l2 -> StronglySorted R l2 -> StronglySorted R l1.
Proof.
  induction 1 as [|x l1 l2 Hsub IH|x l1 l2 Hsub IH]; intros Hs; [done| |].
  - apply StronglySorted_inv in Hs as [Hs Hx]. constructor; [by apply IH|].
    apply Forall_forall. intros y Hy. apply (proj1 (Forall_forall _ _) Hx).
    by eapply elem_of_sublist.
  - apply StronglySorted_inv in Hs as [Hs _]. by apply IH.
Qed.

Lemma NoDup_fmap_elem_inj {A B} (f : A -> B) (l : list A) (x y : A) :
  NoDup (f <$> l) -> x ∈ l -> y ∈ l -> f x = f y -> x = y.
Proof.
  induction l as [|z l IH]; [by intros _ ?%elem_of_nil|].
  rewrite fmap_cons, NoDup_cons. intros [Hz Hnd].
  intros [->|Hx]%elem_of_cons [->|Hy]%elem_of_cons Hf; [done| | |by apply IH].
  - exfalso. apply Hz. rewrite Hf. apply list_elem_of_fmap. by exists y.
  - exfalso. apply Hz. rewrite <- Hf. apply list_elem_of_fmap. by exists x.
Qed.

(** On the catalog, the title-cased name determines the canonical name. *)
Lemma title_resolve_inj :
  Forall (fun a => Forall (fun b =>
            PyStr.title (resolve a) = PyStr.title (resolve b) -> resolve a = resolve b)
          KNOWN_ENTITIES) KNOWN_ENTITIES.
Proof. apply (bool_decide_unpack _). vm_compute. exact I. Qed.

Lemma sorted_catalog_elem (ent : string) :
  ent ∈ sorted_by_len_desc KNOWN_ENTITIES <-> ent ∈ KNOWN_ENTITIES.
Proof.
  destruct (fold_insert_by_len KNOWN_ENTITIES []) as (_ & Hp & _); [constructor|].
  unfold sorted_by_len_desc. by rewrite Hp.
Qed.

(** X: for every question, the entities emitted have pairwise distinct
    names; a canonical name is emitted exactly when one of its surface forms
    occurs in the lowered question; the entities come out by decreasing
    length of the matched text; and nothing is emitted exactly when no
    surface form of the catalog occurs. *)
Theorem detect_entities_distinct_and_exact (question : string) :
  NoDup (ent_name <$> detect_entities question)
  /\ (forall c, (exists e, e ∈ detect_entities question /\ canonical_name e = c)
                <-> (exists ent, ent ∈ KNOWN_ENTITIES
                                 /\ substring ent (PyStr.lower question)
                                 /\ resolve ent = c))
  /\ StronglySorted longer_eq (matched_text <$> detect_entities question)
  /\ (detect_entities question = []
      <-> forall ent, ent ∈ KNOWN_ENTITIES -> ~ substring ent (PyStr.lower question)).
Proof.
  rewrite detect_entities_detect_from.
  set (ql := PyStr.lower question). set (l := sorted_by_len_desc KNOWN_ENTITIES).
  assert (Hexact : forall c,
    (exists e, e ∈ detect_from ql ∅ l /\ canonical_name e = c)
    <-> (exists ent, ent ∈ KNOWN_ENTITIES /\ substring ent ql /\ resolve ent = c)).
  { intros c. split.
    - intros (e & He & <-). apply detect_from_elem in He as (_ & _ & Hhead).
      apply head_Some_elem_of, list_elem_of_filter in Hhead as [[Hocc _] Hin].
      exists (matched_text e). split; [by apply sorted_catalog_elem|].
      split; [by apply str_in_spec | done].
    - intros (ent & Hin & Hocc & <-).
      destruct (detect_from_complete ql ∅ l ent) as (e & He & Hres);
        [by apply sorted_catalog_elem | by apply str_in_spec | set_solver |].
      by exists e. }
  split; [|split; [exact Hexact|split]].
  - apply (NoDup_fmap_2_strong ent_name).
    + intros x y Hx Hy Hname.
      pose proof (detect_from_NoDup ql ∅ l) as Hnd.
      apply detect_from_elem in Hx as Hx'. destruct Hx' as (_ & Hxe & Hxh).
      apply detect_from_elem in Hy as Hy'. destruct Hy' as (_ & Hye & Hyh).
      assert (Hxin : matched_text x ∈ KNOWN_ENTITIES).
      { apply sorted_catalog_elem.
        by apply head_Some_elem_of, list_elem_of_filter in Hxh as [_ ?]. }
      assert (Hyin : matched_text y ∈ KNOWN_ENTITIES).
      { apply sorted_catalog_elem.
        by apply head_Some_elem_of, list_elem_of_filter in Hyh as [_ ?]. }
      assert (Hres : resolve (matched_text x) = resolve (matched_text y)).
      { pose proof (proj1 (Forall_forall _ _) title_resolve_inj _ Hxin) as Hrow.
        apply (proj1 (Forall_forall _ _) Hrow _ Hyin).
        rewrite Hxe, Hye in Hname. exact Hname. }
      by apply (NoDup_fmap_elem_inj (fun e => resolve (matched_text e))
                  (detect_from ql ∅ l)).
    + eapply NoDup_fmap_1. apply (detect_from_NoDup ql ∅ l).
  - destruct (fold_insert_by_len KNOWN_ENTITIES []) as (Hs & _ & _); [constructor|].
    eapply (StronglySorted_sublist longer_eq); [|exact Hs].
    apply detect_from_sublist.
  - split.
    + intros Hnil ent Hin Hocc.
      destruct (proj2 (Hexact (resolve ent))) as (e & He & _); [by exists ent|].
      rewrite Hnil in He. by apply elem_of_nil in He.
    + intros Hnone. destruct (detect_from ql ∅ l) as [|e r] eqn:Hd; [done|].
      destruct (proj1 (Hexact (canonical_name e))) as (ent & Hin & Hocc & _).
      { exists e. split; [by left | done]. }
      by destruct (Hnone ent).
Qed.

Lemma head_filter_sorted {A} (R : A -> A -> Prop) (P : A -> Prop)
    `{!forall x, Decision (P x)} (l : list A) (x y : A) :
  StronglySorted R l -> head (filter P l) = Some x -> y ∈ l -> P y ->
  y = x \/ R x y.
Proof.
  intros Hs Hhead Hy HP.
  assert (Hsf : StronglySorted R (filter P l)).
  { eapply StronglySorted_sublist; [apply sublist_filter | done]. }
  assert (Hyf : y ∈ filter P l) by (by apply list_elem_of_filter).
  destruct (filter P l) as [|z r]; [done|]. injection Hhead as ->.
  apply StronglySorted_inv in Hsf as [_ Hx].
  apply elem_of_cons in Hyf as [?|Hyr]; [by left|]. right.
  by apply (proj1 (Forall_forall _ _) Hx).
Qed.

(** X: the text an entity was matched on occurs in the lowered question and
    is a longest surface form of its canonical name that does: a full name
    in the question is preferred to its short forms. *)
Theorem detect_entities_longest_match (question : string) (e : entity) :
  e ∈ detect_entities question ->
  substring (matched_text e) (PyStr.lower question)
  /\ canonical_name e = resolve (matched_text e)
  /\ (forall ent, ent ∈ KNOWN_ENTITIES ->
                  substring ent (PyStr.lower question) ->
                  resolve ent = canonical_name e ->
                  (String.length ent <= String.length (matched_text e))%nat).
Proof.
  rewrite detect_entities_detect_from.
  intros (_ & _ & Hhead)%detect_from_elem.
  pose proof (head_Some_elem_of _ _ Hhead) as [[Hocc _] _]%list_elem_of_filter.
  split; [by apply str_in_spec|]. split; [done|].
  intros ent Hin Hsub Hres.
  destruct (fold_insert_by_len KNOWN_ENTITIES []) as (Hs & _ & _); [constructor|].
  destruct (head_filter_sorted longer_eq _ _ _ ent Hs Hhead) as [->|Hle].
  - by apply sorted_catalog_elem.
  - split; [by apply str_in_spec | done].
  - done.
  - exact Hle.
Qed.

(** The statement for a question that holds a full name and, inside it, two
    of its short forms. *)
Lemma detect_entities_longest_match_witness :
  substring (matched_text (Entity "Elon Musk" "person" "elon musk"))
            (PyStr.lower "What companies did Elon Musk found?")
  /\ canonical_name (Entity "Elon Musk" "person" "elon musk")
     = resolve (matched_text (Entity "Elon Musk" "person" "elon musk"))
  /\ (forall ent, ent ∈ KNOWN_ENTITIES ->
                  substring ent (PyStr.lower "What companies did Elon Musk found?") ->
                  resolve ent = canonical_name (Entity "Elon Musk" "person" "elon musk") ->
                  (String.length ent
                   <= String.length (matched_text (Entity "Elon Musk" "person" "elon musk")))%nat).
Proof.
  apply (detect_entities_longest_match "What companies did Elon Musk found?").
  apply (list_elem_of_lookup_2 _ 0%nat). vm_compute. reflexivity.
Defined.

(** ** Relationship intents *)

Lemma fold_left_append_map_filter {A B} (P : A -> bool) (g : A -> B)
    (l : list A) (acc : list B) :
  fold_left (fun acc x => if P x then acc ++ [g x] else acc) l acc
  = acc ++ (g <$> filter (fun x => P x = true) l).
Proof.
  revert acc. induction l as [|x l IH]; intros acc; simpl.
  - by rewrite app_nil_r.
  - rewrite IH, filter_cons. destruct (P x).
    + rewrite decide_True by done. by rewrite <- app_assoc.
    + by rewrite decide_False by done.
Qed.

Lemma extract_relationship_intent_filter (question : string) :
  extract_relationship_intent question
  = fst <$> filter (fun rk => existsb (fun kw => PyStr.str_in kw (PyStr.lower question))
                                      rk.2 = true)
                   relationship_keywords.
Proof.
  unfold extract_relationship_intent.
  by rewrite (fold_left_append_map_filter _ fst).
Qed.

Lemma keyword_occurs_spec (ql : string) (kws : list string) :
  existsb (fun kw => PyStr.str_in kw ql) kws = true
  <-> exists kw, kw ∈ kws /\ substring kw ql.
Proof.
  rewrite existsb_exists. split.
  - intros (kw & Hin%list_elem_of_In & Hocc%str_in_spec). by exists kw.
  - intros (kw & Hin & Hocc). exists kw.
    split; [by apply list_elem_of_In | by apply str_in_spec].
Qed.

(** X: an intent is returned exactly when one of its keywords occurs in the
    lowered question; the intents come in the fixed order of the keyword
    table, each at most once; a question that holds "work with" gets both
    [works_at] and [partners_with], because the keyword "work" occurs in
    it; and [co_founded], which has no keyword, is never returned. *)
Theorem extract_relationship_intent_exact (question : string) :
  (forall r, r ∈ extract_relationship_intent question
             <-> exists kws kw, (r, kws) ∈ relationship_keywords
                                /\ kw ∈ kws
                                /\ substring kw (PyStr.lower question))
  /\ sublist (extract_relationship_intent question) (relationship_keywords.*1)
  /\ NoDup (extract_relationship_intent question)
  /\ (substring "work with" (PyStr.lower question) ->
      "works_at" ∈ extract_relationship_intent question
      /\ "partners_with" ∈ extract_relationship_intent question)
  /\ "co_founded" ∉ extract_relationship_intent question.
Proof.
  assert (Hexact : forall r, r ∈ extract_relationship_intent question
             <-> exists kws kw, (r, kws) ∈ relationship_keywords
                                /\ kw ∈ kws
                                /\ substring kw (PyStr.lower question)).
  { intros r. rewrite extract_relationship_intent_filter, list_elem_of_fmap. split.
    - intros ([r' kws] & -> & [Hocc Hin]%list_elem_of_filter).
      apply keyword_occurs_spec in Hocc as (kw & Hkw & Hsub). by exists kws, kw.
    - intros (kws & kw & Hin & Hkw & Hsub). exists (r, kws). split; [done|].
      apply list_elem_of_filter. split; [|done].
      apply keyword_occurs_spec. by exists kw. }
  assert (Hsub : sublist (extract_relationship_intent question)
                         (relationship_keywords.*1)).
  { rewrite extract_relationship_intent_filter. apply fmap_sublist, sublist_filter. }
  split; [exact Hexact|]. split; [exact Hsub|]. split; [|split].
  - eapply sublist_NoDup; [|exact Hsub].
    apply (bool_decide_unpack _). vm_compute. exact I.
  - intros Hww. split; apply Hexact.
    + exists ["work"; "employ"], "work". split; [|split].
      * apply (bool_decide_unpack _). vm_compute. exact I.
      * by left.
      * eapply substring_trans; [|exact Hww]. by exists "", " with".
    + exists ["partner"; "collaborat"; "work with"], "work with". split; [|split].
      * apply (bool_decide_unpack _). vm_compute. exact I.
      * by right; right; left.
      * done.
  - intros Hin. apply (elem_of_sublist _ _ _ Hin) in Hsub.
    revert Hsub. apply (bool_decide_unpack _). vm_compute. exact I.
Qed.

(** ** Rendering one fact *)

(** X: the sentence of a fact reads only the two display names, the
    relation and the attributes [year], [amount], [role] and [product]:
    ids, direction and any other attribute leave it unchanged, and [role]
    is read only when the relation is [leads]. *)
Theorem format_single_fact_reads_only (f : fact) (d s t k : string) (v : value) :
  k ∉ ["year"; "amount"; "role"; "product"] ->
  format_single_fact
    (Fact d s (source_name f) t (target_name f) (relation f) (<[k := v]> (attributes f)))
  = format_single_fact f
  /\ (relation f <> Some (VStr "leads") ->
      format_single_fact (with_attributes f (delete "role" (attributes f)))
      = format_single_fact f
      /\ format_single_fact (with_attributes f (<["role" := v]> (attributes f)))
         = format_single_fact f).
Proof.
  intros Hk. rewrite !elem_of_cons, elem_of_nil in Hk.
  unfold format_single_fact, with_attributes. simpl. split.
  - rewrite !lookup_insert_ne by tauto. done.
  - intros Hrel. rewrite (bool_decide_eq_false_2 _ Hrel).
    rewrite !(lookup_delete_ne _ "role" "year"), !(lookup_delete_ne _ "role" "amount"),
      !(lookup_delete_ne _ "role" "product") by done.
    rewrite !(lookup_insert_ne _ "role" "year"), !(lookup_insert_ne _ "role" "amount"),
      !(lookup_insert_ne _ "role" "product") by done.
    rewrite lookup_delete_eq, lookup_insert_eq.
    split; by destruct (attributes f !! "role").
Qed.

(** The statement for the partnership of Microsoft and OpenAI, whose
    attribute [type] is not rendered. *)
Lemma format_single_fact_reads_only_witness :
  format_single_fact
    (Fact "incoming" "c4" (Some "Microsoft") "c3" (Some "OpenAI")
          (Some (VStr "partners_with")) (<["type" := VStr "strategic"]> ∅))
  = format_single_fact
      (Fact "outgoing" "x" (Some "Microsoft") "y" (Some "OpenAI")
            (Some (VStr "partners_with")) ∅)
  /\ (Some (VStr "partners_with") <> Some (VStr "leads") ->
      format_single_fact
        (with_attributes
           (Fact "outgoing" "x" (Some "Microsoft") "y" (Some "OpenAI")
                 (Some (VStr "partners_with")) ∅)
           (delete "role" ∅))
      = format_single_fact
          (Fact "outgoing" "x" (Some "Microsoft") "y" (Some "OpenAI")
                (Some (VStr "partners_with")) ∅)
      /\ format_single_fact
           (with_attributes
              (Fact "outgoing" "x" (Some "Microsoft") "y" (Some "OpenAI")
                    (Some (VStr "partners_with")) ∅)
              (<["role" := VStr "strategic"]> ∅))
         = format_single_fact
             (Fact "outgoing" "x" (Some "Microsoft") "y" (Some "OpenAI")
                   (Some (VStr "partners_with")) ∅)).
Proof.
  apply (format_single_fact_reads_only
           (Fact "outgoing" "x" (Some "Microsoft") "y" (Some "OpenAI")
                 (Some (VStr "partners_with")) ∅)
           "incoming" "c4" "c3" "type" (VStr "strategic")).
  apply (bool_decide_unpack _). vm_compute. exact I.
Defined.

(** The template table has exactly the eight relation labels, each with a
    sentence of the form source, verb phrase, target. *)
Lemma templates_lookup (s t r : string) :
  (templates s t !! r = None /\ r ∉ template_relations)
  \/ (exists verb, templates s t !! r = Some (s +:+ " " +:+ verb +:+ " " +:+ t)
                   /\ r ∈ template_relations).
Proof.
  destruct (decide (r ∈ template_relations)) as [Hr|Hr].
  - right. unfold template_relations in Hr. rewrite !elem_of_cons, elem_of_nil in Hr.
    destruct Hr as [->|[->|[->|[->|[->|[->|[->|[->|[]]]]]]]]];
      [exists "founded"|exists "co-founded"|exists "leads"|exists "works at"
      |exists "invested in"|exists "acquired"|exists "partners with"
      |exists "supplies to"];
      (split; [reflexivity|apply (bool_decide_unpack _); vm_compute; exact I]).
  - left. split; [|done]. by apply not_elem_of_list_to_map_1.
Qed.

Lemma format_single_fact_form (f : fact) :
  exists verb tail,
    format_single_fact f
    = PyStr.fmt_opt_str (source_name f) +:+ " " +:+ verb +:+ " "
      +:+ PyStr.fmt_opt_str (target_name f) +:+ tail
    /\ ((forall r, r ∈ template_relations -> relation f <> Some (VStr r)) ->
        verb = PyStr.fmt_opt_value (relation f))
    /\ ((forall k, k ∈ ["year"; "amount"; "role"; "product"] ->
                   attributes f !! k = None) -> tail = "")
    /\ (tail = "" \/ exists rest, tail = " " +:+ rest).
Proof.
  unfold format_single_fact.
  set (src := PyStr.fmt_opt_str (source_name f)).
  set (tgt := PyStr.fmt_opt_str (target_name f)).
  set (fallback := src +:+ " " +:+ PyStr.fmt_opt_value (relation f) +:+ " " +:+ tgt).
  set (sentence := match relation f with
                   | Some (VStr r) => default fallback (templates src tgt !! r)
                   | _ => fallback end).
  assert (exists verb, sentence = src +:+ " " +:+ verb +:+ " " +:+ tgt
            /\ ((forall r, r ∈ template_relations -> relation f <> Some (VStr r)) ->
                verb = PyStr.fmt_opt_value (relation f))) as (verb & Hs & Hverb).
  { subst sentence. destruct (relation f) as [[r|z]|] eqn:Hrel;
      [|by eexists|by eexists].
    destruct (templates_lookup src tgt r) as [[-> Hr]|(verb & -> & Hr)]; simpl.
    - by eexists.
    - exists verb. split; [done|]. intros H. by destruct (H r Hr). }
  cbv zeta.
  set (parts := _ ++ _ ++ _ ++ _).
  exists verb.
  destruct parts as [|p ps] eqn:Hparts.
  - exists "". rewrite string_app_nil_r. repeat split; [done|done|by left].
  - exists (" " +:+ PyStr.join " " (p :: ps)). rewrite Hs, !string_app_assoc.
    repeat split; [done| |by eauto].
    intros Hnone. exfalso. subst parts.
    rewrite !Hnone in Hparts by (apply (bool_decide_unpack _); vm_compute; exact I).
    done.
Qed.

Lemma format_single_fact_names (f : fact) :
  substring (PyStr.fmt_opt_str (source_name f)) (format_single_fact f)
  /\ substring (PyStr.fmt_opt_str (target_name f)) (format_single_fact f).
Proof.
  destruct (format_single_fact_form f) as (verb & tail & -> & _). split.
  - by exists "", (" " +:+ verb +:+ " " +:+ PyStr.fmt_opt_str (target_name f) +:+ tail).
  - exists (PyStr.fmt_opt_str (source_name f) +:+ " " +:+ verb +:+ " "), tail.
    by rewrite !string_app_assoc.
Qed.

(** X: for a fact whose printed integers have at most 4300 digits, the
    sentence is the source name, a verb phrase and the target name,
    separated by single spaces and followed by the attribute details; a
    relation without template is printed as it is, and a fact with none of
    the attributes [year], [amount], [role], [product] has no details. *)
Theorem format_single_fact_shape (f : fact) :
  fact_printable f ->
  exists verb tail,
    format_single_fact f
    = PyStr.fmt_opt_str (source_name f) +:+ " " +:+ verb +:+ " "
      +:+ PyStr.fmt_opt_str (target_name f) +:+ tail
    /\ ((forall r, r ∈ template_relations -> relation f <> Some (VStr r)) ->
        verb = PyStr.fmt_opt_value (relation f))
    /\ ((forall k, k ∈ ["year"; "amount"; "role"; "product"] ->
                   attributes f !! k = None) -> tail = "")
    /\ (tail = "" \/ exists rest, tail = " " +:+ rest).
Proof. intros _. exact (format_single_fact_form f). Qed.

(** The statement for the fact that Elon Musk founded Tesla in 2003. *)
Lemma format_single_fact_shape_witness :
  exists verb tail,
    format_single_fact tesla_founded
    = PyStr.fmt_opt_str (source_name tesla_founded) +:+ " " +:+ verb +:+ " "
      +:+ PyStr.fmt_opt_str (target_name tesla_founded) +:+ tail
    /\ ((forall r, r ∈ template_relations -> relation tesla_founded <> Some (VStr r)) ->
        verb = PyStr.fmt_opt_value (relation tesla_founded))
    /\ ((forall k, k ∈ ["year"; "amount"; "role"; "product"] ->
                   attributes tesla_founded !! k = None) -> tail = "")
    /\ (tail = "" \/ exists rest, tail = " " +:+ rest).
Proof.
  apply (format_single_fact_shape tesla_founded).
  apply (bool_decide_unpack _). vm_compute. exact I.
Defined.

(** ** Building the context *)

(** X: for a fact of a list whose printed integers have at most 4300
    digits, the context contains its line, the names of its two ends, the
    heading of the fact list and the name of every detected entity, and it
    differs from the text for no facts. *)
Theorem build_context_mentions (facts : list fact) (entities : list entity) (f : fact) :
  Forall fact_printable facts ->
  f ∈ facts ->
  substring ("- " +:+ format_single_fact f) (build_context facts entities)
  /\ substring (PyStr.fmt_opt_str (source_name f)) (build_context facts entities)
  /\ substring (PyStr.fmt_opt_str (target_name f)) (build_context facts entities)
  /\ substring "Known facts:" (build_context facts entities)
  /\ (forall e, e ∈ entities -> substring (ent_name e) (build_context facts entities))
  /\ build_context facts entities <> NO_INFO.
Proof.
  intros _ Hf.
  assert (facts <> []) as Hne by (intros ->; by apply elem_of_nil in Hf).
  assert (Hline : substring ("- " +:+ format_single_fact f) (build_context facts entities)).
  { unfold build_context. destruct facts as [|f0 facts]; [done|].
    apply substring_join. rewrite !elem_of_app. right. right.
    apply (list_elem_of_fmap_2 (fun f => "- " +:+ format_single_fact f)), Hf. }
  destruct (format_single_fact_names f) as [Hs Ht].
  split; [done|]. split; [|split; [|split; [|split]]].
  - eapply substring_trans; [|apply Hline]. by apply substring_app_r.
  - eapply substring_trans; [|apply Hline]. by apply substring_app_r.
  - unfold build_context. destruct facts as [|f0 facts]; [done|].
    apply substring_join. rewrite !elem_of_app. right. left. apply list_elem_of_singleton. done.
  - intros e He. unfold build_context. destruct facts as [|f0 facts]; [done|].
    destruct entities as [|e0 entities]; [by apply elem_of_nil in He|].
    eapply substring_trans; [|apply substring_join; rewrite !elem_of_app; left; apply elem_of_cons; left; reflexivity].
    apply substring_app_r, substring_join.
    apply (list_elem_of_fmap_2 ent_name), He.
  - by rewrite build_context_sentinel_iff.
Qed.

(** The statement for the fact that Elon Musk leads Tesla. *)
Lemma build_context_mentions_witness :
  substring "- Elon Musk leads Tesla as CEO"
    (build_context
       [Fact "outgoing" "p1" (Some "Elon Musk") "c1" (Some "Tesla")
             (Some (VStr "leads")) (<["role" := VStr "CEO"]> ∅)]
       [Entity "Elon Musk" "person" "elon musk"]).
Proof.
  refine (proj1 (build_context_mentions
           [Fact "outgoing" "p1" (Some "Elon Musk") "c1" (Some "Tesla")
                 (Some (VStr "leads")) (<["role" := VStr "CEO"]> ∅)]
           [Entity "Elon Musk" "person" "elon musk"]
           (Fact "outgoing" "p1" (Some "Elon Musk") "c1" (Some "Tesla")
                 (Some (VStr "leads")) (<["role" := VStr "CEO"]> ∅)) _ _)).
  - apply (bool_decide_unpack _). vm_compute. exact I.
  - apply list_elem_of_singleton. reflexivity.
Defined.
